(** * Whitelist key/HWID verification server (server.js)

    A shallow embedding of the Express application of [server.js]:
    the shared-secret middleware, the [/verify_key] handler with its two
    SQL statements against the [whitelist] table, and the [/health]
    handler.

    A handler is a small program tree whose nodes are the points where
    the source talks to the connection pool or to the response object.
    The tree is run in two ways: to completion, one request after the
    other ([run], [session]), and interleaved at its [await] points
    ([exec]), which is how Node.js schedules overlapping requests;
    [pool_exec] is the interleaving under the limit of the connection
    pool.

    Assumptions on the collaborators that are not in the source:
    - the columns [HWID] and [redeemedBy] hold SQL NULL or a string, stored
      and compared exactly; [`Key` = ?] is exact string equality;
    - a statement that fails has no effect on the table;
    - [express.json()] leaves [req.body] an object, so a field that was
      not sent reads [undefined];
    - the fields [key], [hwid] and [serverAuthKey] are absent, JSON null
      or JSON strings (the interface gives them as strings);
    - a caller of [pool.getConnection()] that has to wait for one of the
      ten connections is delayed, not answered differently.
    The [console.warn] and [console.error] lines are left out. *)

From Stdlib Require Import String List Bool Arith Lia.
Import ListNotations.
Open Scope string_scope.

(** ** JavaScript values that reach the handlers *)

Module Js.

Inductive value : Type :=
| undefined
| null
| str (s : string).

(** [!v] is [negb (truthy v)]. *)
Definition truthy (v : value) : bool :=
  match v with
  | str s => negb (s =? "")
  | _ => false
  end.

(** [a || b] *)
Definition or (a b : value) : value := if truthy a then a else b.

(** [a === b] *)
Definition strict_eq (a b : value) : bool :=
  match a, b with
  | undefined, undefined => true
  | null, null => true
  | str s, str t => s =? t
  | _, _ => false
  end.

(** A header or an environment variable: a string, or [undefined]. *)
Definition of_option (o : option string) : value :=
  match o with
  | Some s => str s
  | None => undefined
  end.

(** A column read by mysql2: SQL NULL reads as [null]. *)
Definition of_sql (c : option string) : value :=
  match c with
  | Some s => str s
  | None => null
  end.

(** A value bound to a [?] placeholder. *)
Definition param (v : value) : option string :=
  match v with
  | str s => Some s
  | _ => None
  end.

End Js.

(** ** The [whitelist] table *)

(** The columns fetched by [SELECT HWID, redeemedBy]. *)
Record entry : Type := mkEntry {
  HWID : option string;
  redeemedBy : option string
}.

Record row : Type := mkRow {
  Key : string;
  cols : entry
}.

Definition whitelist : Type := list row.

(** [WHERE `Key` = ?] *)
Definition key_is (p : option string) (r : row) : bool :=
  match p with
  | Some k => Key r =? k
  | None => false
  end.

(** [SELECT HWID, redeemedBy FROM whitelist WHERE `Key` = ?] *)
Definition select (key : option string) (t : whitelist) : list entry :=
  map cols (filter (key_is key) t).

(** [UPDATE whitelist SET HWID = ?, redeemedBy = ? WHERE `Key` = ?] *)
Definition update (hwid marker key : option string) (t : whitelist) : whitelist :=
  map (fun r => if key_is key r then mkRow (Key r) (mkEntry hwid marker) else r) t.

(** ** Responses *)

Inductive json : Type :=
| result (success : bool) (message : string)
| alive (status message : string)
| default_page.

Record response : Type := mkResponse {
  status : nat;
  payload : json
}.

Definition Unauthorized : response :=
  mkResponse 401 (result false "Unauthorized: Invalid server key.").
Definition MissingInput : response :=
  mkResponse 400 (result false "Missing key or HWID.").
Definition InvalidKey : response :=
  mkResponse 200 (result false "Invalid key.").
Definition AlreadyRedeemedByOther : response :=
  mkResponse 200 (result false "This key has already been redeemed by another user.").
Definition RedeemedNow : response :=
  mkResponse 200 (result true "Key redeemed successfully! Welcome.").
Definition AuthorizedMatch : response :=
  mkResponse 200 (result true "Authentication successful! Welcome.").
Definition HwidMismatch : response :=
  mkResponse 200 (result false "HWID mismatch. This key is linked to a different device.").
Definition StoreError : response :=
  mkResponse 500 (result false "Internal server error.").
Definition HealthOk : response :=
  mkResponse 200 (alive "ok" "Auth server is running.").
(** What Express answers when no route matches. *)
Definition NoRoute : response :=
  mkResponse 404 default_page.

Definition json_eqb (a b : json) : bool :=
  match a, b with
  | result s m, result s' m' => Bool.eqb s s' && (m =? m')
  | alive s m, alive s' m' => (s =? s') && (m =? m')
  | default_page, default_page => true
  | _, _ => false
  end.

Definition response_eqb (a b : response) : bool :=
  (status a =? status b)%nat && json_eqb (payload a) (payload b).

(** ** Handler programs *)

(** [h] is where control goes when the awaited call throws. *)
Inductive prog : Type :=
| Halt
| Respond (r : response) (k : prog)
| GetConnection (k : prog) (h : prog)
| Select (key : option string) (k : list entry -> prog) (h : prog)
| Update (hwid marker key : option string) (k : prog) (h : prog)
| Release (k : prog).

(** [entry.HWID === null || entry.HWID === 'null' || entry.HWID === ''] *)
Definition hwid_unset (e : entry) : bool :=
  Js.strict_eq (Js.of_sql (HWID e)) Js.null
  || Js.strict_eq (Js.of_sql (HWID e)) (Js.str "null")
  || Js.strict_eq (Js.of_sql (HWID e)) (Js.str "").

(** [entry.redeemedBy !== null && entry.redeemedBy !== 'null' && entry.redeemedBy !== ''] *)
Definition redeemed_set (e : entry) : bool :=
  negb (Js.strict_eq (Js.of_sql (redeemedBy e)) Js.null)
  && negb (Js.strict_eq (Js.of_sql (redeemedBy e)) (Js.str "null"))
  && negb (Js.strict_eq (Js.of_sql (redeemedBy e)) (Js.str "")).

(** The [catch] block followed by the [finally] block; [connected] tells
    whether [connection] was assigned. *)
Definition catch (connected : bool) : prog :=
  Respond StoreError (if connected then Release Halt else Halt).

(** The [finally] block on the paths that hold a connection. *)
Definition finally : prog := Release Halt.

Record Body : Type := mkBody {
  serverAuthKey : Js.value;
  key : Js.value;
  hwid : Js.value
}.

(** [app.post('/verify_key', ...)] *)
Definition verify_key (body : Body) : prog :=
  if negb (Js.truthy (key body)) || negb (Js.truthy (hwid body)) then
    Respond MissingInput Halt
  else
    GetConnection
      (Select (Js.param (key body))
         (fun rows =>
            match rows with
            | [] => Respond InvalidKey finally
            | entry :: _ =>
                if hwid_unset entry then
                  if redeemed_set entry then
                    Respond AlreadyRedeemedByOther finally
                  else
                    Update (Js.param (hwid body)) (Some "true") (Js.param (key body))
                      (Respond RedeemedNow finally)
                      (catch true)
                else if Js.strict_eq (Js.of_sql (HWID entry)) (hwid body) then
                  Respond AuthorizedMatch finally
                else
                  Respond HwidMismatch finally
            end)
         (catch true))
      (catch false).

(** [app.get('/health', ...)] *)
Definition health : prog := Respond HealthOk Halt.

(** ** The application: middleware, then routes *)

(** The route Express resolves a request's method and path to. *)
Inductive route : Type :=
| post_verify_key
| get_health
| unrouted.

Record Request : Type := mkRequest {
  target : route;
  x_server_auth : option string;
  body : Body
}.

Record Env : Type := mkEnv {
  SERVER_API_KEY : option string
}.

(** [req.headers['x-server-auth'] || req.body.serverAuthKey] *)
Definition credential (req : Request) : Js.value :=
  Js.or (Js.of_option (x_server_auth req)) (serverAuthKey (body req)).

(** [serverAuthKey === process.env.SERVER_API_KEY] *)
Definition authenticated (env : Env) (req : Request) : bool :=
  Js.strict_eq (credential req) (Js.of_option (SERVER_API_KEY env)).

Definition routes (req : Request) : prog :=
  match target req with
  | post_verify_key => verify_key (body req)
  | get_health => health
  | unrouted => Respond NoRoute Halt
  end.

Definition app (env : Env) (req : Request) : prog :=
  if authenticated env req then routes req
  else Respond Unauthorized Halt.

(** ** Running one request to completion *)

Inductive event : Type :=
| connect (ok : bool)
| query_select (key : option string) (ok : bool)
| query_update (hwid marker key : option string) (ok : bool)
| release.

(** [faults] tells, call after call, which calls to the pool or to the
    database throw; past its end none does. *)
Record state : Type := mkState {
  table : whitelist;
  faults : list bool;
  sent : list response;
  trace : list event
}.

Definition fresh (t : whitelist) (fs : list bool) : state :=
  mkState t fs [] [].

Definition throws (s : state) : bool := hd false (faults s).

Definition reply (r : response) (s : state) : state :=
  mkState (table s) (faults s) (sent s ++ [r]) (trace s).

Definition note (e : event) (s : state) : state :=
  mkState (table s) (faults s) (sent s) (trace s ++ [e]).

(** A call to the pool or the database was made: its fault is consumed. *)
Definition called (e : event) (t : whitelist) (s : state) : state :=
  mkState t (tl (faults s)) (sent s) (trace s ++ [e]).

Fixpoint run (p : prog) (s : state) : state :=
  match p with
  | Halt => s
  | Respond r k => run k (reply r s)
  | GetConnection k h =>
      if throws s then run h (called (connect false) (table s) s)
      else run k (called (connect true) (table s) s)
  | Select key k h =>
      if throws s then run h (called (query_select key false) (table s) s)
      else run (k (select key (table s))) (called (query_select key true) (table s) s)
  | Update hw m key k h =>
      if throws s then run h (called (query_update hw m key false) (table s) s)
      else run k (called (query_update hw m key true) (update hw m key (table s)) s)
  | Release k => run k (note release s)
  end.

(** No call throws. *)
Definition reliable (fs : list bool) : bool := forallb negb fs.

(** Requests served one after the other: what each one was answered, and
    the table and faults left. *)
Fixpoint session (reqs : list Body) (t : whitelist) (fs : list bool)
  : list (Body * list response) * (whitelist * list bool) :=
  match reqs with
  | [] => ([], (t, fs))
  | b :: rest =>
      let s := run (verify_key b) (fresh t fs) in
      let '(log, final) := session rest (table s) (faults s) in
      ((b, sent s) :: log, final)
  end.

(** How many requests for [k] were answered [RedeemedNow]. *)
Definition redemptions (k : string) (log : list (Body * list response)) : nat :=
  length (filter (fun '(b, rs) =>
                    Js.strict_eq (key b) (Js.str k) && existsb (response_eqb RedeemedNow) rs)
                 log).

(** ** Overlapping requests *)

(** A request in flight: what remains of its handler, and what it has
    answered. *)
Record thread : Type := mkThread {
  code : prog;
  answers : list response
}.

Record system : Type := mkSystem {
  db : whitelist;
  threads : list thread
}.

(** One node of one handler; [fail] tells whether the awaited call
    throws.  The source runs without interruption from one [await] to the
    next; here the answer and the release that follow an [await] are
    steps of their own, which adds no behaviour of the table since neither
    reads or writes it. *)
Definition step (fail : bool) (t : whitelist) (th : thread) : whitelist * thread :=
  match code th with
  | Halt => (t, th)
  | Respond r k => (t, mkThread k (answers th ++ [r]))
  | GetConnection k h => (t, mkThread (if fail then h else k) (answers th))
  | Select key k h => (t, mkThread (if fail then h else k (select key t)) (answers th))
  | Update hw m key k h =>
      if fail then (t, mkThread h (answers th))
      else (update hw m key t, mkThread k (answers th))
  | Release k => (t, mkThread k (answers th))
  end.

Fixpoint step_nth (i : nat) (fail : bool) (t : whitelist) (ths : list thread)
  : whitelist * list thread :=
  match ths, i with
  | [], _ => (t, [])
  | th :: rest, O => let '(t', th') := step fail t th in (t', th' :: rest)
  | th :: rest, S j => let '(t', rest') := step_nth j fail t rest in (t', th :: rest')
  end.

(** A schedule names, step after step, the request that moves and whether
    its call throws. *)
Fixpoint exec (sched : list (nat * bool)) (s : system) : system :=
  match sched with
  | [] => s
  | (i, fail) :: rest =>
      let '(t', ths') := step_nth i fail (db s) (threads s) in
      exec rest (mkSystem t' ths')
  end.

Definition start (t : whitelist) (reqs : list Body) : system :=
  mkSystem t (map (fun b => mkThread (verify_key b) []) reqs).

(** ** Sample data *)

Definition sample_key : string := "ABC123".

Definition unbound_table : whitelist :=
  [mkRow sample_key (mkEntry None None)].

Definition bound_table (h : string) : whitelist :=
  [mkRow sample_key (mkEntry (Some h) (Some "true"))].

(** A row seeded with the literal ['null'] and no redemption marker. *)
Definition seeded_null_table : whitelist :=
  [mkRow sample_key (mkEntry (Some "null") None)].

Definition verify_body (k h : string) : Body :=
  mkBody Js.undefined (Js.str k) (Js.str h).

(** Two first uses of one key that overlap: both read before either
    writes. *)
Definition racing_schedule : list (nat * bool) :=
  [(0, false); (1, false);      (* both get a connection *)
   (0, false); (1, false);      (* both SELECT *)
   (0, false); (0, false); (0, false)].  (* the first one UPDATEs, answers, releases *)

Definition racing_rest : list (nat * bool) :=
  [(1, false); (1, false); (1, false)].  (* the second one UPDATEs, answers, releases *)

Definition racing_start : system :=
  start unbound_table [verify_body sample_key "H1"; verify_body sample_key "H2"].

Definition no_credential (r : route) (b : Body) : Request :=
  mkRequest r None b.

(** ** Vocabulary of the statements *)

(** An empty or missing string. *)
Definition blank (v : Js.value) : Prop :=
  v = Js.undefined \/ v = Js.null \/ v = Js.str "".

(** A call that threw. *)
Definition failed (e : event) : bool :=
  match e with
  | connect ok => negb ok
  | query_select _ ok => negb ok
  | query_update _ _ _ ok => negb ok
  | release => false
  end.

(** The rows of a key after a successful bind to [h]. *)
Definition bound_to (h : string) (es : list entry) : list entry :=
  map (fun _ => mkEntry (Some h) (Some "true")) es.

(** What each request of a session was answered. *)
Definition answered (reqs : list Body) (t : whitelist) (fs : list bool)
  : list (list response) :=
  map snd (fst (session reqs t fs)).

(** The table a session leaves. *)
Definition left_table (reqs : list Body) (t : whitelist) (fs : list bool) : whitelist :=
  fst (snd (session reqs t fs)).

(** ** The connection pool *)

(** [connectionLimit: 10], with [waitForConnections: true] and
    [queueLimit: 0]: a caller of [pool.getConnection()] waits while ten
    connections are out. *)
Definition connectionLimit : nat := 10.

Record pooled : Type := mkPooled {
  in_use : nat;
  inner : system
}.

(** One node of one handler under the pool: a request that asks for a
    connection while [connectionLimit] are out does not move;
    [connection.release()] gives one back. *)
Definition pool_step (fail : bool) (n : nat) (t : whitelist) (th : thread)
  : nat * (whitelist * thread) :=
  match code th with
  | GetConnection k h =>
      if fail then (n, (t, mkThread h (answers th)))
      else if (n <? connectionLimit)%nat then (S n, (t, mkThread k (answers th)))
      else (n, (t, th))
  | Release k => (pred n, (t, mkThread k (answers th)))
  | _ => (n, step fail t th)
  end.

Fixpoint pool_step_nth (i : nat) (fail : bool) (n : nat) (t : whitelist)
         (ths : list thread) : nat * (whitelist * list thread) :=
  match ths, i with
  | [], _ => (n, (t, []))
  | th :: rest, O =>
      let '(n', (t', th')) := pool_step fail n t th in (n', (t', th' :: rest))
  | th :: rest, S j =>
      let '(n', (t', rest')) := pool_step_nth j fail n t rest in (n', (t', th :: rest'))
  end.

Fixpoint pool_exec (sched : list (nat * bool)) (s : pooled) : pooled :=
  match sched with
  | [] => s
  | (i, fail) :: rest =>
      let '(n', (t', ths')) :=
        pool_step_nth i fail (in_use s) (db (inner s)) (threads (inner s)) in
      pool_exec rest (mkPooled n' (mkSystem t' ths'))
  end.

Definition pool_start (t : whitelist) (reqs : list Body) : pooled :=
  mkPooled 0 (start t reqs).

(** ** Vocabulary of the further properties *)

(** [success: true] in the answer. *)
Definition succeeded (r : response) : bool :=
  match payload r with
  | result true _ => true
  | _ => false
  end.

(** A call to the pool or to the database. *)
Definition is_call (e : event) : bool :=
  match e with
  | release => false
  | _ => true
  end.

(** Every path through [p] sends exactly [n] answers. *)
Fixpoint answers_left (n : nat) (p : prog) : Prop :=
  match p with
  | Halt => n = 0
  | Respond _ k => match n with 0 => False | S m => answers_left m k end
  | GetConnection k h => answers_left n k /\ answers_left n h
  | Select _ k h => (forall rows, answers_left n (k rows)) /\ answers_left n h
  | Update _ _ _ k h => answers_left n k /\ answers_left n h
  | Release k => answers_left n k
  end.

(** No path through [p] writes the rows of [k], as long as a read of [k]
    returns [held]. *)
Fixpoint spares (k : string) (held : list entry) (p : prog) : Prop :=
  match p with
  | Halt => True
  | Respond _ p' => spares k held p'
  | GetConnection p1 p2 => spares k held p1 /\ spares k held p2
  | Select p kont h =>
      (forall rows, (p = Some k -> rows = held) -> spares k held (kont rows)) /\
      spares k held h
  | Update _ _ p p1 p2 => p <> Some k /\ spares k held p1 /\ spares k held p2
  | Release p' => spares k held p'
  end.

(** The request is between a [getConnection] that succeeded and its
    [release]. *)
Fixpoint holds (p : prog) : bool :=
  match p with
  | Halt => false
  | Respond _ k => holds k
  | GetConnection _ _ => false
  | Select _ _ _ => true
  | Update _ _ _ _ _ => true
  | Release _ => true
  end.

(** Started with ([c = true]) or without a connection, every path through
    [p] queries only while it has one, asks for one only while it has
    none, releases the one it has exactly once, and ends with none. *)
Fixpoint balanced (c : bool) (p : prog) : Prop :=
  match p with
  | Halt => c = false
  | Respond _ k => balanced c k
  | GetConnection k h => c = false /\ balanced true k /\ balanced false h
  | Select _ k h => c = true /\ (forall rows, balanced true (k rows)) /\ balanced true h
  | Update _ _ _ k h => c = true /\ balanced true k /\ balanced true h
  | Release k => c = true /\ balanced false k
  end.

(** The connections that the requests in flight have out. *)
Definition holding (ths : list thread) : nat :=
  length (filter (fun th => holds (code th)) ths).

Definition weight (th : thread) : nat := if holds (code th) then 1 else 0.

(** The first row read for a key is bound, or carries a redemption
    marker, or there is no row: the handler then answers without
    writing. *)
Definition settled (held : list entry) : Prop :=
  match held with
  | [] => True
  | e :: _ => hwid_unset e = false \/ redeemed_set e = true
  end.



(** * Properties *)

(** ** The store *)

Section StoreLaws.

Variables h m : option string.

Lemma key_is_update (p q : option string) (r : row) :
  key_is p (if key_is q r then mkRow (Key r) (mkEntry h m) else r) = key_is p r.
Proof. destruct (key_is q r); reflexivity. Qed.

(** The rows of the key all take the new columns, whatever they held. *)
Lemma select_update_same (p : option string) (t : whitelist) :
  select p (update h m p t) = map (fun _ => mkEntry h m) (select p t).
Proof.
  unfold select, update.
  induction t as [|r t IH]; simpl; [reflexivity|].
  destruct (key_is p r) eqn:E; simpl.
  - destruct p as [k|]; simpl in *; [|discriminate].
    rewrite E. simpl. f_equal. exact IH.
  - rewrite E. exact IH.
Qed.

(** The rows of every other key are left alone. *)
Lemma select_update_other (p q : option string) (t : whitelist) :
  p <> q -> select p (update h m q t) = select p t.
Proof.
  intros Hpq. unfold select, update.
  induction t as [|r t IH]; simpl; [reflexivity|].
  rewrite key_is_update.
  destruct (key_is p r) eqn:Ep; simpl; rewrite IH; [|reflexivity].
  f_equal. destruct (key_is q r) eqn:Eq; [|reflexivity].
  exfalso. apply Hpq.
  destruct p as [k|], q as [k'|]; simpl in *; try discriminate.
  apply String.eqb_eq in Ep, Eq. congruence.
Qed.

Lemma update_rows (p : option string) (t : whitelist) :
  Forall2 (fun r r' => Key r' = Key r /\
                       (r' = r \/ (key_is p r = true /\ cols r' = mkEntry h m)))
          t (update h m p t).
Proof.
  unfold update. induction t as [|r t IH]; simpl; constructor; [|exact IH].
  destruct (key_is p r) eqn:E; simpl; auto.
Qed.

End StoreLaws.

Lemma Forall2_same {A} (P : A -> A -> Prop) (l : list A) :
  (forall a, P a a) -> Forall2 P l l.
Proof. intros H. induction l; constructor; auto. Qed.

(** ** Values *)

Lemma truthy_str (v : Js.value) :
  Js.truthy v = true -> exists s, v = Js.str s /\ s <> "".
Proof.
  destruct v as [| |s]; simpl; try discriminate.
  intros H. exists s. split; [reflexivity|].
  intros ->. discriminate.
Qed.

Lemma truthy_of_str (s : string) : s <> "" -> Js.truthy (Js.str s) = true.
Proof.
  intros H. simpl. destruct (s =? "") eqn:E; [|reflexivity].
  apply String.eqb_eq in E. contradiction.
Qed.

Lemma strict_eq_true (a b : Js.value) : Js.strict_eq a b = true <-> a = b.
Proof.
  destruct a, b; simpl; split; intros H; try discriminate; try reflexivity.
  - apply String.eqb_eq in H. now subst.
  - injection H as ->. apply String.eqb_refl.
Qed.

Lemma hwid_unset_spec (e : entry) :
  hwid_unset e = true <-> HWID e = None \/ HWID e = Some "null" \/ HWID e = Some "".
Proof.
  unfold hwid_unset. destruct (HWID e) as [s|]; simpl.
  - rewrite orb_true_iff, !String.eqb_eq. split.
    + intros [->| ->]; auto.
    + intros [H|[H|H]]; try discriminate; injection H as ->; auto.
  - split; auto.
Qed.

Lemma redeemed_set_spec (e : entry) :
  redeemed_set e = false <->
  redeemedBy e = None \/ redeemedBy e = Some "null" \/ redeemedBy e = Some "".
Proof.
  unfold redeemed_set. destruct (redeemedBy e) as [s|]; simpl.
  - rewrite andb_false_iff, !negb_false_iff, !String.eqb_eq. split.
    + intros [->| ->]; auto.
    + intros [H|[H|H]]; try discriminate; injection H as ->; auto.
  - split; auto.
Qed.

Lemma response_eqb_eq (a b : response) : response_eqb a b = true -> a = b.
Proof.
  destruct a as [sa pa], b as [sb pb]. unfold response_eqb. simpl.
  rewrite andb_true_iff, Nat.eqb_eq. intros [-> H]. f_equal.
  destruct pa, pb; simpl in H; try discriminate; try reflexivity;
    apply andb_true_iff in H as [H1 H2].
  - apply Bool.eqb_prop in H1. apply String.eqb_eq in H2. now subst.
  - apply String.eqb_eq in H1, H2. now subst.
Qed.

Lemma reliable_throws (fs : list bool) :
  reliable fs = true -> hd false fs = false /\ reliable (tl fs) = true.
Proof.
  destruct fs as [|[|] fs]; simpl; auto. discriminate.
Qed.

(** ** One request, run to completion *)

Lemma verify_key_guard (b : Body) :
  negb (Js.truthy (key b)) || negb (Js.truthy (hwid b)) = true ->
  verify_key b = Respond MissingInput Halt.
Proof. unfold verify_key. now intros ->. Qed.

Lemma guard_passed (k h : string) (b : Body) :
  key b = Js.str k -> hwid b = Js.str h -> k <> "" -> h <> "" ->
  negb (Js.truthy (key b)) || negb (Js.truthy (hwid b)) = false.
Proof.
  intros -> -> Hk Hh. now rewrite !truthy_of_str.
Qed.

Ltac fault_cases fs :=
  destruct fs as [|[|] [|[|] [|[|] fs]]]; simpl in *; try discriminate.

(** What a request with well-formed input is answered, and what it does
    to the table, when no call throws. *)
Lemma run_reliable (k h : string) (b : Body) (t : whitelist) (fs : list bool) :
  key b = Js.str k -> hwid b = Js.str h -> k <> "" -> h <> "" ->
  reliable fs = true ->
  let s := run (verify_key b) (fresh t fs) in
  reliable (faults s) = true /\
  match select (Some k) t with
  | [] => sent s = [InvalidKey] /\ table s = t
  | e :: _ =>
      if hwid_unset e then
        if redeemed_set e then sent s = [AlreadyRedeemedByOther] /\ table s = t
        else sent s = [RedeemedNow] /\
             table s = update (Some h) (Some "true") (Some k) t
      else if Js.strict_eq (Js.of_sql (HWID e)) (Js.str h)
           then sent s = [AuthorizedMatch] /\ table s = t
           else sent s = [HwidMismatch] /\ table s = t
  end.
Proof.
  intros Hk Hh Hk0 Hh0 Hfs. unfold verify_key.
  rewrite (guard_passed k h b Hk Hh Hk0 Hh0), Hk, Hh.
  destruct (select (Some k) t) as [|e rest] eqn:Hsel;
    [|destruct (hwid_unset e) eqn:Hu;
      [destruct (redeemed_set e) eqn:Hr
      |destruct (Js.strict_eq (Js.of_sql (HWID e)) (Js.str h)) eqn:Hm]];
    fault_cases fs; rewrite ?Hsel, ?Hu, ?Hr, ?Hm; simpl; auto.
Qed.

(** Whatever throws, a request leaves the table alone or is the single
    successful first use of its key. *)
Lemma run_any (b : Body) (t : whitelist) (fs : list bool) :
  let s := run (verify_key b) (fresh t fs) in
  (table s = t /\ ~ In RedeemedNow (sent s)) \/
  (exists k h e rest,
      key b = Js.str k /\ hwid b = Js.str h /\ k <> "" /\ h <> "" /\
      select (Some k) t = e :: rest /\
      hwid_unset e = true /\ redeemed_set e = false /\
      table s = update (Some h) (Some "true") (Some k) t /\
      sent s = [RedeemedNow]).
Proof.
  unfold verify_key.
  destruct (negb (Js.truthy (key b)) || negb (Js.truthy (hwid b))) eqn:G.
  - left. simpl. split; [reflexivity|]. intros [H|[]]. discriminate.
  - apply orb_false_iff in G as [Gk Gh].
    apply negb_false_iff, truthy_str in Gk as (k & Hk & Hk0).
    apply negb_false_iff, truthy_str in Gh as (h & Hh & Hh0).
    rewrite Hk, Hh.
    destruct (select (Some k) t) as [|e rest] eqn:Hsel;
      [|destruct (hwid_unset e) eqn:Hu;
        [destruct (redeemed_set e) eqn:Hr
        |destruct (Js.strict_eq (Js.of_sql (HWID e)) (Js.str h)) eqn:Hm]];
      fault_cases fs; rewrite ?Hsel, ?Hu, ?Hr, ?Hm; simpl;
      try (left; split; [reflexivity|]; intros [H|[]]; discriminate);
      right; exists k, h, e, rest; repeat split; auto.
Qed.

(** ** Requests served one after the other *)

Lemma session_cons (b : Body) (rest : list Body) (t : whitelist) (fs : list bool) :
  let s := run (verify_key b) (fresh t fs) in
  session (b :: rest) t fs =
  ((b, sent s) :: fst (session rest (table s) (faults s)),
   snd (session rest (table s) (faults s))).
Proof.
  simpl. now destruct (session rest _ _) as [log final].
Qed.

Lemma not_redeemed_now (rs : list response) :
  ~ In RedeemedNow rs -> existsb (response_eqb RedeemedNow) rs = false.
Proof.
  intros H. destruct (existsb _ rs) eqn:E; [|reflexivity].
  apply existsb_exists in E as (r & Hin & Hr).
  apply response_eqb_eq in Hr. subst r. contradiction.
Qed.

(** A first row that is bound is left as it is by every request. *)
Lemma run_keeps_bound (k : string) (e : entry) (rest : list entry)
      (b : Body) (t : whitelist) (fs : list bool) :
  select (Some k) t = e :: rest -> hwid_unset e = false ->
  select (Some k) (table (run (verify_key b) (fresh t fs))) = select (Some k) t.
Proof.
  intros Hsel Hb.
  destruct (run_any b t fs) as [[Ht _]|(k' & h & e' & r' & _ & _ & _ & _ & Hs & Hu & _ & Ht & _)];
    rewrite Ht; [reflexivity|].
  apply select_update_other. intros E. injection E as <-.
  rewrite Hsel in Hs. injection Hs as <- _. congruence.
Qed.

(** A first row that carries a redemption marker keeps one, and its key
    is not redeemed again. *)
Lemma run_keeps_marker (k : string) (e : entry) (rest : list entry)
      (b : Body) (t : whitelist) (fs : list bool) :
  select (Some k) t = e :: rest -> redeemed_set e = true ->
  let s := run (verify_key b) (fresh t fs) in
  select (Some k) (table s) = select (Some k) t /\
  (Js.strict_eq (key b) (Js.str k) && existsb (response_eqb RedeemedNow) (sent s) = false).
Proof.
  intros Hsel Hr.
  destruct (run_any b t fs)
    as [[Ht Hn]|(k' & h & e' & r' & Hk & _ & _ & _ & Hs & _ & Hr' & Ht & _)];
    cbv zeta; rewrite Ht.
  - split; [reflexivity|]. rewrite (not_redeemed_now _ Hn). apply andb_false_r.
  - assert (Hne : k <> k').
    { intros <-. rewrite Hsel in Hs. injection Hs as <- _. congruence. }
    split.
    + apply select_update_other. congruence.
    + rewrite Hk. simpl. destruct (k' =? k) eqn:E; [|reflexivity].
      apply String.eqb_eq in E. congruence.
Qed.

Lemma marked_never_redeemed (k : string) (reqs : list Body) :
  forall (t : whitelist) (fs : list bool) (e : entry) (rest : list entry),
    select (Some k) t = e :: rest -> redeemed_set e = true ->
    redemptions k (fst (session reqs t fs)) = 0.
Proof.
  induction reqs as [|b reqs IH]; intros t fs e rest Hsel Hr; [reflexivity|].
  rewrite session_cons. cbv zeta. unfold redemptions. cbn [fst filter].
  destruct (run_keeps_marker k e rest b t fs Hsel Hr) as [Hkeep ->].
  rewrite <- Hkeep in Hsel. exact (IH _ _ e rest Hsel Hr).
Qed.

Lemma at_most_one_redemption (k : string) (reqs : list Body) :
  forall (t : whitelist) (fs : list bool),
    redemptions k (fst (session reqs t fs)) <= 1.
Proof.
  induction reqs as [|b reqs IH]; intros t fs; [unfold redemptions; simpl; lia|].
  rewrite session_cons. cbv zeta. unfold redemptions. cbn [fst filter].
  destruct (run_any b t fs)
    as [[Ht Hn]|(k' & h & e & rest & Hk & _ & _ & _ & Hs & _ & _ & Ht & _)].
  - rewrite (not_redeemed_now _ Hn), andb_false_r. apply IH.
  - rewrite Hk. simpl Js.strict_eq. destruct (k' =? k) eqn:E.
    + apply String.eqb_eq in E. subst k'.
      assert (Hz : redemptions k
                 (fst (session reqs (table (run (verify_key b) (fresh t fs)))
                               (faults (run (verify_key b) (fresh t fs))))) = 0).
      { apply marked_never_redeemed
          with (e := mkEntry (Some h) (Some "true"))
               (rest := map (fun _ => mkEntry (Some h) (Some "true")) rest);
          [|reflexivity].
        rewrite Ht, select_update_same, Hs. reflexivity. }
      unfold redemptions in Hz.
      destruct (_ && _); simpl; rewrite Hz; lia.
    + simpl. apply IH.
Qed.

Lemma session_keeps_bound (k : string) (reqs : list Body) :
  forall (t : whitelist) (fs : list bool) (e : entry) (rest : list entry),
    select (Some k) t = e :: rest -> hwid_unset e = false ->
    select (Some k) (left_table reqs t fs) = select (Some k) t.
Proof.
  induction reqs as [|b reqs IH]; intros t fs e rest Hsel Hb; [reflexivity|].
  unfold left_table. rewrite session_cons. cbv zeta. cbn [snd].
  pose proof (run_keeps_bound k e rest b t fs Hsel Hb) as Hkeep.
  rewrite <- Hkeep. rewrite <- Hkeep in Hsel. exact (IH _ _ e rest Hsel Hb).
Qed.

Lemma blank_falsy (v : Js.value) : blank v -> Js.truthy v = false.
Proof. intros [->|[->| ->]]; reflexivity. Qed.

Lemma absent_select (k : string) (t : whitelist) :
  ~ In k (map Key t) -> select (Some k) t = [].
Proof.
  unfold select. induction t as [|r t IH]; simpl; intros H; [reflexivity|].
  destruct (Key r =? k) eqn:E.
  - apply String.eqb_eq in E. tauto.
  - apply IH. tauto.
Qed.

Lemma set_hwid_not_unset (e : entry) (h : string) :
  HWID e = Some h -> h <> "" -> h <> "null" -> hwid_unset e = false.
Proof.
  intros H H0 Hn. destruct (hwid_unset e) eqn:E; [|reflexivity].
  apply hwid_unset_spec in E. rewrite H in E.
  destruct E as [E|[E|E]]; congruence.
Qed.

Lemma strict_eq_refl (v : Js.value) : Js.strict_eq v v = true.
Proof. now apply strict_eq_true. Qed.

Lemma strict_eq_str_neq (a b : string) : a <> b -> Js.strict_eq (Js.str a) (Js.str b) = false.
Proof.
  intros H. destruct (Js.strict_eq _ _) eqn:E; [|reflexivity].
  apply strict_eq_true in E. congruence.
Qed.

(** Re-verification of a bound key with its own HWID, any number of
    times. *)
Lemma repeated_match (k bh : string) (n : nat) :
  forall (t : whitelist) (fs : list bool) (e : entry) (rest : list entry),
    k <> "" -> select (Some k) t = e :: rest ->
    HWID e = Some bh -> bh <> "" -> bh <> "null" -> reliable fs = true ->
    answered (repeat (verify_body k bh) n) t fs = repeat [AuthorizedMatch] n /\
    left_table (repeat (verify_body k bh) n) t fs = t.
Proof.
  unfold answered, left_table.
  induction n as [|n IH]; intros t fs e rest Hk Hsel Hh Hb0 Hbn Hfs; [now split|].
  cbn [repeat]. rewrite session_cons. cbv zeta. cbn [fst snd map].
  destruct (run_reliable k bh (verify_body k bh) t fs eq_refl eq_refl Hk Hb0 Hfs)
    as [Hfs' Hrun].
  rewrite Hsel, (set_hwid_not_unset e bh Hh Hb0 Hbn), Hh in Hrun.
  simpl Js.of_sql in Hrun. rewrite strict_eq_refl in Hrun.
  destruct Hrun as [-> ->].
  destruct (IH t _ e rest Hk Hsel Hh Hb0 Hbn Hfs') as [-> ->]. now split.
Qed.

(** A key that reads as unbound but marked is refused, any number of
    times. *)
Lemma repeated_refusal (k h : string) (n : nat) :
  forall (t : whitelist) (fs : list bool) (e : entry) (rest : list entry),
    k <> "" -> h <> "" -> select (Some k) t = e :: rest ->
    hwid_unset e = true -> redeemed_set e = true -> reliable fs = true ->
    answered (repeat (verify_body k h) n) t fs = repeat [AlreadyRedeemedByOther] n.
Proof.
  unfold answered.
  induction n as [|n IH]; intros t fs e rest Hk Hh Hsel Hu Hr Hfs; [reflexivity|].
  cbn [repeat]. rewrite session_cons. cbv zeta. cbn [fst map].
  destruct (run_reliable k h (verify_body k h) t fs eq_refl eq_refl Hk Hh Hfs)
    as [Hfs' Hrun].
  rewrite Hsel, Hu, Hr in Hrun. destruct Hrun as [-> ->].
  now rewrite (IH t _ e rest Hk Hh Hsel Hu Hr Hfs').
Qed.

(** A call that threw is answered [StoreError] and leaves the table. *)
Lemma run_failed (b : Body) (t : whitelist) (fs : list bool) :
  let s := run (verify_key b) (fresh t fs) in
  existsb failed (trace s) = true -> sent s = [StoreError] /\ table s = t.
Proof.
  unfold verify_key.
  destruct (negb (Js.truthy (key b)) || negb (Js.truthy (hwid b))) eqn:G.
  - simpl. discriminate.
  - destruct (select (Js.param (key b)) t) as [|e rest] eqn:Hsel;
      [|destruct (hwid_unset e) eqn:Hu;
        [destruct (redeemed_set e) eqn:Hr
        |destruct (Js.strict_eq (Js.of_sql (HWID e)) (hwid b)) eqn:Hm]];
      fault_cases fs; rewrite ?Hsel, ?Hu, ?Hr, ?Hm; simpl;
      try discriminate; auto.
Qed.

(** * The claims *)

(** ** C1: the bind write *)

(** C1, as stated, fails: two first uses of one key that overlap both
    read the row as unbound; the second write finds [HWID] already set to
    ["H1"], overwrites it with ["H2"], and both callers are answered
    [RedeemedNow]. *)
Lemma overlapping_first_uses_both_redeem :
  let mid := exec racing_schedule racing_start in
  let fin := exec racing_rest mid in
  select (Some sample_key) (db mid) = [mkEntry (Some "H1") (Some "true")] /\
  map code (skipn 1 (threads mid))
  = [Update (Some "H2") (Some "true") (Some sample_key)
            (Respond RedeemedNow finally) (catch true)] /\
  select (Some sample_key) (db fin) = [mkEntry (Some "H2") (Some "true")] /\
  map answers (threads fin) = [[RedeemedNow]; [RedeemedNow]].
Proof. repeat split. Qed.

(** C1 (amended): the bind write is keyed on the key alone.  Whatever the
    rows of the key hold when it runs, it sets their [HWID] and
    [redeemedBy]; the unbound state is tested on the request's own earlier
    read, which is what every [RedeemedNow] answer rests on.  For requests
    served one after the other, at most one per key is answered
    [RedeemedNow]. *)
Theorem bind_write_unconditional :
  (forall (t : whitelist) (k h : string),
      select (Some k) (update (Some h) (Some "true") (Some k) t)
      = bound_to h (select (Some k) t)) /\
  (forall (t : whitelist) (th : thread) (hw m p : option string) (k h : prog),
      code th = Update hw m p k h -> fst (step false t th) = update hw m p t) /\
  (forall (b : Body) (t : whitelist) (fs : list bool),
      In RedeemedNow (sent (run (verify_key b) (fresh t fs))) ->
      exists k e rest,
        key b = Js.str k /\ select (Some k) t = e :: rest /\
        hwid_unset e = true /\ redeemed_set e = false) /\
  (forall (k : string) (reqs : list Body) (t : whitelist) (fs : list bool),
      redemptions k (fst (session reqs t fs)) <= 1).
Proof.
  repeat split.
  - intros t k h. apply select_update_same.
  - intros t th hw m p k h Hc. unfold step. now rewrite Hc.
  - intros b t fs Hin.
    destruct (run_any b t fs)
      as [[_ Hn]|(k & h & e & rest & Hk & _ & _ & _ & Hs & Hu & Hr & _)];
      [contradiction|].
    now exists k, e, rest.
  - intros k reqs t fs. apply at_most_one_redemption.
Qed.

Lemma bind_write_unconditional_witness :
  In RedeemedNow
     (sent (run (verify_key (verify_body sample_key "H1")) (fresh unbound_table []))) /\
  (exists k e rest,
      key (verify_body sample_key "H1") = Js.str k /\
      select (Some k) unbound_table = e :: rest /\
      hwid_unset e = true /\ redeemed_set e = false) /\
  redemptions sample_key
    (fst (session [verify_body sample_key "H1"; verify_body sample_key "H2"]
                  unbound_table [])) <= 1.
Proof.
  assert (H : In RedeemedNow
     (sent (run (verify_key (verify_body sample_key "H1")) (fresh unbound_table [])))).
  { simpl. left. reflexivity. }
  split; [exact H|]. split.
  - exact (proj1 (proj2 (proj2 bind_write_unconditional)) _ _ _ H).
  - apply (proj2 (proj2 (proj2 bind_write_unconditional))).
Defined.

(** ** C2: the access gate *)

(** C2, as stated, fails: with [SERVER_API_KEY] unset, a request that
    carries no credential passes the gate and reaches the table; with an
    empty secret, so does a request whose body gives the empty
    credential. *)
Lemma unset_secret_admits_missing_credential :
  let req := no_credential post_verify_key (verify_body sample_key "H1") in
  let req' := no_credential post_verify_key
                (mkBody (Js.str "") (Js.str sample_key) (Js.str "H1")) in
  credential req = Js.undefined /\
  sent (run (app (mkEnv None) req) (fresh unbound_table [])) = [RedeemedNow] /\
  table (run (app (mkEnv None) req) (fresh unbound_table [])) = bound_table "H1" /\
  sent (run (app (mkEnv (Some "")) req') (fresh unbound_table [])) = [RedeemedNow] /\
  table (run (app (mkEnv (Some "")) req') (fresh unbound_table [])) = bound_table "H1".
Proof. repeat split. Qed.

Lemma unequal_credential_rejected (env : Env) (req : Request) :
  credential req <> Js.of_option (SERVER_API_KEY env) ->
  app env req = Respond Unauthorized Halt.
Proof.
  intros H. unfold app, authenticated.
  destruct (Js.strict_eq _ _) eqn:E; [|reflexivity].
  apply strict_eq_true in E. contradiction.
Qed.

(** C2 (amended): the gate rejects every request whose credential is not
    exactly equal to the configured secret, whatever the route; such a
    request is answered [Unauthorized] and makes no call to the pool or
    the database. *)
Theorem gate_rejects_unequal_credential
        (env : Env) (req : Request) (t : whitelist) (fs : list bool) :
  credential req <> Js.of_option (SERVER_API_KEY env) ->
  app env req = Respond Unauthorized Halt /\
  run (app env req) (fresh t fs) = mkState t fs [Unauthorized] [] /\
  status Unauthorized = 401.
Proof.
  intros H. rewrite (unequal_credential_rejected env req H). repeat split.
Qed.

Lemma gate_rejects_unequal_credential_witness :
  run (app (mkEnv (Some "s3cret"))
           (no_credential post_verify_key (verify_body sample_key "H1")))
      (fresh unbound_table [])
  = mkState unbound_table [] [Unauthorized] [].
Proof.
  apply (gate_rejects_unequal_credential
           (mkEnv (Some "s3cret"))
           (no_credential post_verify_key (verify_body sample_key "H1"))
           unbound_table []).
  simpl. discriminate.
Defined.

(** With a secret that is a non-empty string, an empty or missing
    credential never passes. *)
Lemma gate_rejects_blank_credential
      (env : Env) (req : Request) (secret : string) :
  SERVER_API_KEY env = Some secret -> secret <> "" ->
  Js.truthy (credential req) = false ->
  app env req = Respond Unauthorized Halt.
Proof.
  intros Hs Hne Hb.
  apply unequal_credential_rejected.
  rewrite Hs. simpl. intros E. rewrite E in Hb.
  now rewrite truthy_of_str in Hb.
Qed.

(** ** C3: health *)

(** C3, as stated, fails: the gate is installed before every route, so a
    health request without the secret is answered [Unauthorized]. *)
Lemma health_behind_gate :
  sent (run (app (mkEnv (Some "s3cret"))
                 (no_credential get_health (mkBody Js.undefined Js.undefined Js.undefined)))
            (fresh unbound_table []))
  = [Unauthorized] /\
  Unauthorized <> HealthOk.
Proof. split; [reflexivity|discriminate]. Qed.

(** C3 (amended): a health request that passes the gate is answered
    ["ok"], one that does not is answered [Unauthorized]; either way it
    takes nothing from the request body and makes no call to the pool or
    the database. *)
Theorem health_ok_when_authenticated
        (env : Env) (req : Request) (t : whitelist) (fs : list bool) :
  target req = get_health ->
  run (app env req) (fresh t fs)
  = mkState t fs [if authenticated env req then HealthOk else Unauthorized] [] /\
  payload HealthOk = alive "ok" "Auth server is running.".
Proof.
  intros H. unfold app, routes. rewrite H.
  destruct (authenticated env req); split; reflexivity.
Qed.

Lemma health_ok_when_authenticated_witness :
  run (app (mkEnv (Some "s3cret"))
           (mkRequest get_health (Some "s3cret")
                      (mkBody Js.undefined Js.undefined Js.undefined)))
      (fresh unbound_table [true])
  = mkState unbound_table [true] [HealthOk] [].
Proof.
  apply (health_ok_when_authenticated
           (mkEnv (Some "s3cret"))
           (mkRequest get_health (Some "s3cret")
                      (mkBody Js.undefined Js.undefined Js.undefined))
           unbound_table [true]).
  reflexivity.
Defined.

(** ** C4: the binding does not change *)

(** C4, as stated, fails: the literal ['null'] is a non-empty [HWID], and
    the handler reads it as unbound; a row seeded with it is bound anew by
    the next request. *)
Lemma null_literal_binding_is_rebound :
  select (Some sample_key) seeded_null_table = [mkEntry (Some "null") None] /\
  answered [verify_body sample_key "X"] seeded_null_table [] = [[RedeemedNow]] /\
  select (Some sample_key) (left_table [verify_body sample_key "X"] seeded_null_table [])
  = [mkEntry (Some "X") (Some "true")].
Proof. repeat split. Qed.

(** C4 (amended): when the row of a key has [HWID] set to a non-empty
    value other than the literal ['null'], no sequence of verify
    operations served one after the other, on any keys, with any hwid
    arguments and whichever calls throw, changes the rows of that key:
    a bound key stays bound to the same HWID. *)
Theorem bound_hwid_never_changes
        (k bh : string) (e : entry) (rest : list entry)
        (reqs : list Body) (t : whitelist) (fs : list bool) :
  select (Some k) t = e :: rest ->
  HWID e = Some bh -> bh <> "" -> bh <> "null" ->
  select (Some k) (left_table reqs t fs) = select (Some k) t.
Proof.
  intros Hsel Hh H0 Hn.
  exact (session_keeps_bound k reqs t fs e rest Hsel
                             (set_hwid_not_unset e bh Hh H0 Hn)).
Qed.

Lemma bound_hwid_never_changes_witness :
  select (Some sample_key)
         (left_table [verify_body sample_key "H2"; verify_body sample_key "null";
                      verify_body sample_key "H1"]
                     (bound_table "H1") [false; true])
  = select (Some sample_key) (bound_table "H1").
Proof.
  apply (bound_hwid_never_changes
           sample_key "H1" (mkEntry (Some "H1") (Some "true")) []).
  - reflexivity.
  - reflexivity.
  - discriminate.
  - discriminate.
Defined.

(** ** C5: first use, then the same device again *)

(** C5, as stated, fails at the hwid ["null"]: the first call is answered
    [RedeemedNow], the second [AlreadyRedeemedByOther]. *)
Lemma null_hwid_second_verify_not_match :
  answered [verify_body sample_key "null"; verify_body sample_key "null"]
           unbound_table []
  = [[RedeemedNow]; [AlreadyRedeemedByOther]] /\
  AlreadyRedeemedByOther <> AuthorizedMatch.
Proof. split; [reflexivity|discriminate]. Qed.

(** C5 (amended): for a key whose row reads as unbound and carries no
    redemption marker, and every non-empty hwid other than the literal
    ['null'], two verify calls with that hwid are answered [RedeemedNow]
    then [AuthorizedMatch] when no call throws, and the rows of the key
    end with that HWID and the marker ['true']. *)
Theorem first_use_then_match
        (k h : string) (e : entry) (rest : list entry)
        (t : whitelist) (fs : list bool) :
  k <> "" -> h <> "" -> h <> "null" -> reliable fs = true ->
  select (Some k) t = e :: rest ->
  hwid_unset e = true -> redeemed_set e = false ->
  answered [verify_body k h; verify_body k h] t fs
  = [[RedeemedNow]; [AuthorizedMatch]] /\
  select (Some k) (left_table [verify_body k h; verify_body k h] t fs)
  = bound_to h (e :: rest).
Proof.
  intros Hk Hh Hn Hfs Hsel Hu Hr.
  unfold answered, left_table.
  rewrite session_cons. cbv zeta.
  destruct (run_reliable k h (verify_body k h) t fs eq_refl eq_refl Hk Hh Hfs)
    as [Hfs1 Hrun1].
  rewrite Hsel, Hu, Hr in Hrun1. destruct Hrun1 as [Hsent1 Ht1].
  assert (Hsel1 : select (Some k) (table (run (verify_key (verify_body k h)) (fresh t fs)))
                  = bound_to h (e :: rest)).
  { rewrite Ht1, select_update_same, Hsel. reflexivity. }
  rewrite session_cons. cbv zeta.
  destruct (run_reliable k h (verify_body k h)
                         (table (run (verify_key (verify_body k h)) (fresh t fs)))
                         _ eq_refl eq_refl Hk Hh Hfs1)
    as [_ Hrun2].
  rewrite Hsel1 in Hrun2. cbn [bound_to map] in Hrun2.
  rewrite (set_hwid_not_unset (mkEntry (Some h) (Some "true")) h eq_refl Hh Hn) in Hrun2.
  cbn [HWID Js.of_sql] in Hrun2. rewrite strict_eq_refl in Hrun2.
  destruct Hrun2 as [Hsent2 Ht2].
  cbn [session fst snd map]. rewrite Hsent1, Hsent2, Ht2. split; [reflexivity|].
  exact Hsel1.
Qed.

Lemma first_use_then_match_witness :
  answered [verify_body sample_key "H1"; verify_body sample_key "H1"] unbound_table []
  = [[RedeemedNow]; [AuthorizedMatch]] /\
  select (Some sample_key)
         (left_table [verify_body sample_key "H1"; verify_body sample_key "H1"]
                     unbound_table [])
  = bound_to "H1" [mkEntry None None].
Proof.
  apply (first_use_then_match sample_key "H1" (mkEntry None None) [] unbound_table []).
  - discriminate.
  - discriminate.
  - discriminate.
  - reflexivity.
  - reflexivity.
  - reflexivity.
  - reflexivity.
Defined.

(** ** C6: re-verification *)

(** C6, as stated, fails for a key bound to the literal ['null'] (what a
    first use with that hwid leaves): verifying with the bound HWID is
    answered [AlreadyRedeemedByOther]. *)
Lemma bound_to_null_literal_not_matched :
  table (run (verify_key (verify_body sample_key "null")) (fresh unbound_table []))
  = bound_table "null" /\
  sent (run (verify_key (verify_body sample_key "null")) (fresh (bound_table "null") []))
  = [AlreadyRedeemedByOther] /\
  AlreadyRedeemedByOther <> AuthorizedMatch.
Proof. repeat split. discriminate. Qed.

(** C6 (amended): for a key bound to an HWID other than the literal
    ['null'], when no call throws, any number of verify calls with the
    bound HWID are all answered [AuthorizedMatch] and leave the table as
    it was; a verify call with another non-empty hwid is answered
    [HwidMismatch] and leaves the table as it was. *)
Theorem reverification_idempotent
        (k bh other : string) (n : nat) (e : entry) (rest : list entry)
        (t : whitelist) (fs : list bool) :
  k <> "" -> select (Some k) t = e :: rest ->
  HWID e = Some bh -> bh <> "" -> bh <> "null" ->
  reliable fs = true -> other <> "" -> other <> bh ->
  answered (repeat (verify_body k bh) n) t fs = repeat [AuthorizedMatch] n /\
  left_table (repeat (verify_body k bh) n) t fs = t /\
  sent (run (verify_key (verify_body k other)) (fresh t fs)) = [HwidMismatch] /\
  table (run (verify_key (verify_body k other)) (fresh t fs)) = t.
Proof.
  intros Hk Hsel Hh Hb0 Hbn Hfs Ho0 Hob.
  destruct (repeated_match k bh n t fs e rest Hk Hsel Hh Hb0 Hbn Hfs) as [Ha Hl].
  destruct (run_reliable k other (verify_body k other) t fs eq_refl eq_refl Hk Ho0 Hfs)
    as [_ Hrun].
  rewrite Hsel, (set_hwid_not_unset e bh Hh Hb0 Hbn), Hh in Hrun.
  cbn [Js.of_sql] in Hrun. rewrite strict_eq_str_neq in Hrun by congruence.
  tauto.
Qed.

Lemma reverification_idempotent_witness :
  answered (repeat (verify_body sample_key "H1") 3) (bound_table "H1") []
  = repeat [AuthorizedMatch] 3 /\
  left_table (repeat (verify_body sample_key "H1") 3) (bound_table "H1") []
  = bound_table "H1" /\
  sent (run (verify_key (verify_body sample_key "H2")) (fresh (bound_table "H1") []))
  = [HwidMismatch] /\
  table (run (verify_key (verify_body sample_key "H2")) (fresh (bound_table "H1") []))
  = bound_table "H1".
Proof.
  apply (reverification_idempotent
           sample_key "H1" "H2" 3 (mkEntry (Some "H1") (Some "true")) []
           (bound_table "H1") []).
  - discriminate.
  - reflexivity.
  - reflexivity.
  - discriminate.
  - discriminate.
  - reflexivity.
  - discriminate.
  - discriminate.
Defined.

(** ** C7: the ['null'] sentinel *)

(** C7: the handler reads SQL NULL, the empty string and the literal
    ['null'] as unset, in [HWID] and in [redeemedBy] alike.  So a first
    use that presents the hwid ["null"] is answered [RedeemedNow] and
    stores ['null'] as the HWID, and every later verify call with
    ["null"] is answered [AlreadyRedeemedByOther], not
    [AuthorizedMatch]. *)
Theorem null_hwid_sentinel_collision
        (k : string) (e : entry) (rest : list entry)
        (t : whitelist) (fs : list bool) (n : nat) :
  k <> "" -> reliable fs = true ->
  select (Some k) t = e :: rest ->
  hwid_unset e = true -> redeemed_set e = false ->
  (forall e', hwid_unset e' = true <->
              HWID e' = None \/ HWID e' = Some "null" \/ HWID e' = Some "") /\
  (forall e', redeemed_set e' = false <->
              redeemedBy e' = None \/ redeemedBy e' = Some "null" \/ redeemedBy e' = Some "") /\
  sent (run (verify_key (verify_body k "null")) (fresh t fs)) = [RedeemedNow] /\
  select (Some k) (table (run (verify_key (verify_body k "null")) (fresh t fs)))
  = bound_to "null" (e :: rest) /\
  answered (repeat (verify_body k "null") n)
           (table (run (verify_key (verify_body k "null")) (fresh t fs)))
           (faults (run (verify_key (verify_body k "null")) (fresh t fs)))
  = repeat [AlreadyRedeemedByOther] n /\
  AlreadyRedeemedByOther <> AuthorizedMatch.
Proof.
  intros Hk Hfs Hsel Hu Hr.
  split; [exact hwid_unset_spec|]. split; [exact redeemed_set_spec|].
  assert (Hnull : "null" <> "") by discriminate.
  destruct (run_reliable k "null" (verify_body k "null") t fs eq_refl eq_refl Hk Hnull Hfs)
    as [Hfs1 Hrun].
  rewrite Hsel, Hu, Hr in Hrun. destruct Hrun as [Hsent Ht].
  assert (Hsel1 : select (Some k)
                    (table (run (verify_key (verify_body k "null")) (fresh t fs)))
                  = bound_to "null" (e :: rest)).
  { rewrite Ht, select_update_same, Hsel. reflexivity. }
  repeat split; [exact Hsent|exact Hsel1| |discriminate].
  exact (repeated_refusal k "null" n _ _ _ _ Hk Hnull Hsel1 eq_refl eq_refl Hfs1).
Qed.

Lemma null_hwid_sentinel_collision_witness :
  sent (run (verify_key (verify_body sample_key "null")) (fresh unbound_table []))
  = [RedeemedNow] /\
  answered (repeat (verify_body sample_key "null") 2)
           (table (run (verify_key (verify_body sample_key "null")) (fresh unbound_table [])))
           (faults (run (verify_key (verify_body sample_key "null")) (fresh unbound_table [])))
  = repeat [AlreadyRedeemedByOther] 2.
Proof.
  destruct (null_hwid_sentinel_collision
              sample_key (mkEntry None None) [] unbound_table [] 2)
    as (_ & _ & Hs & _ & Ha & _).
  - discriminate.
  - reflexivity.
  - reflexivity.
  - reflexivity.
  - reflexivity.
  - split; [exact Hs|exact Ha].
Defined.

(** ** C8: a key that is not in the table *)

(** C8: for a key that no row carries, and a non-empty hwid, verify is
    answered [InvalidKey] with status 200 (an ordinary negative answer,
    not the [StoreError] of a failure) when no call throws, and the table
    is left as it was whichever calls throw. *)
Theorem absent_key_invalid
        (k h : string) (t : whitelist) (fs fs' : list bool) :
  k <> "" -> h <> "" -> ~ In k (map Key t) -> reliable fs = true ->
  sent (run (verify_key (verify_body k h)) (fresh t fs)) = [InvalidKey] /\
  status InvalidKey = 200 /\
  InvalidKey <> StoreError /\
  table (run (verify_key (verify_body k h)) (fresh t fs')) = t.
Proof.
  intros Hk Hh Habs Hfs.
  pose proof (absent_select k t Habs) as Hsel.
  destruct (run_reliable k h (verify_body k h) t fs eq_refl eq_refl Hk Hh Hfs)
    as [_ Hrun].
  rewrite Hsel in Hrun. destruct Hrun as [Hsent _].
  repeat split; [exact Hsent|discriminate|].
  destruct (run_any (verify_body k h) t fs')
    as [[Ht _]|(k' & h' & e & rest & Hk' & _ & _ & _ & Hs & _)]; [exact Ht|].
  injection Hk' as <-. rewrite Hsel in Hs. discriminate.
Qed.

Lemma absent_key_invalid_witness :
  sent (run (verify_key (verify_body "NOPE" "H1")) (fresh unbound_table []))
  = [InvalidKey] /\
  status InvalidKey = 200 /\
  InvalidKey <> StoreError /\
  table (run (verify_key (verify_body "NOPE" "H1")) (fresh unbound_table [false; true]))
  = unbound_table.
Proof.
  apply (absent_key_invalid "NOPE" "H1" unbound_table [] [false; true]).
  - discriminate.
  - discriminate.
  - simpl. intros [H|[]]. discriminate.
  - reflexivity.
Defined.

(** ** C9: missing input *)

(** C9: when [key] or [hwid] is an empty or missing string, the handler
    answers [MissingInput] with status 400 at once: it makes no call to
    the pool or the database, and table and trace are as before. *)
Theorem missing_input_rejected
        (b : Body) (t : whitelist) (fs : list bool) :
  blank (key b) \/ blank (hwid b) ->
  verify_key b = Respond MissingInput Halt /\
  run (verify_key b) (fresh t fs) = mkState t fs [MissingInput] [] /\
  status MissingInput = 400.
Proof.
  intros H.
  assert (G : negb (Js.truthy (key b)) || negb (Js.truthy (hwid b)) = true).
  { destruct H as [H|H]; apply blank_falsy in H; rewrite H;
      [reflexivity|apply orb_true_r]. }
  rewrite (verify_key_guard b G). repeat split.
Qed.

Lemma missing_input_rejected_witness :
  run (verify_key (mkBody Js.undefined (Js.str sample_key) (Js.str "")))
      (fresh unbound_table [true])
  = mkState unbound_table [true] [MissingInput] [].
Proof.
  apply (missing_input_rejected
           (mkBody Js.undefined (Js.str sample_key) (Js.str "")) unbound_table [true]).
  right. right. right. reflexivity.
Defined.

(** ** C10: all or nothing *)

(** C10: a verify request leaves every row as it was or with both [HWID]
    (a non-empty string) and [redeemedBy] set, never one without the
    other; and a request one of whose calls to the pool or the database
    threw is answered [StoreError] (status 500, not [InvalidKey]) and
    leaves the table as it was. *)
Theorem bind_all_or_nothing
        (b : Body) (t : whitelist) (fs : list bool) :
  Forall2 (fun r r' =>
             Key r' = Key r /\
             (r' = r \/
              exists h, h <> "" /\ hwid b = Js.str h /\
                        cols r' = mkEntry (Some h) (Some "true")))
          t (table (run (verify_key b) (fresh t fs))) /\
  (existsb failed (trace (run (verify_key b) (fresh t fs))) = true ->
   sent (run (verify_key b) (fresh t fs)) = [StoreError] /\
   table (run (verify_key b) (fresh t fs)) = t) /\
  status StoreError = 500 /\
  StoreError <> InvalidKey.
Proof.
  repeat split; try discriminate; try (apply run_failed; assumption).
  destruct (run_any b t fs)
    as [[Ht _]|(k & h & e & rest & _ & Hh & _ & Hh0 & _ & _ & _ & Ht & _)];
    rewrite Ht.
  - apply Forall2_same. auto.
  - eapply Forall2_impl; [|apply update_rows].
    intros r r' [HK [->|[_ Hc]]]; split; auto.
    right. exists h. auto.
Qed.

Lemma bind_all_or_nothing_witness :
  existsb failed
    (trace (run (verify_key (verify_body sample_key "H1"))
                (fresh unbound_table [false; false; true]))) = true /\
  sent (run (verify_key (verify_body sample_key "H1"))
            (fresh unbound_table [false; false; true])) = [StoreError] /\
  table (run (verify_key (verify_body sample_key "H1"))
             (fresh unbound_table [false; false; true])) = unbound_table.
Proof.
  assert (H : existsb failed
    (trace (run (verify_key (verify_body sample_key "H1"))
                (fresh unbound_table [false; false; true]))) = true) by reflexivity.
  split; [exact H|].
  exact (proj1 (proj2 (bind_all_or_nothing
                         (verify_body sample_key "H1") unbound_table
                         [false; false; true])) H).
Defined.

(** * Further properties of the handlers *)

(** ** Every path of [/verify_key] *)

Ltac verify_paths b t fs :=
  unfold verify_key;
  let G := fresh "G" in
  destruct (negb (Js.truthy (key b)) || negb (Js.truthy (hwid b))) eqn:G;
  [ | let e := fresh "e" in
      let rest := fresh "rest" in
      let Hsel := fresh "Hsel" in
      let Hu := fresh "Hu" in
      let Hr := fresh "Hr" in
      let Hm := fresh "Hm" in
      destruct (select (Js.param (key b)) t) as [|e rest] eqn:Hsel;
      [|destruct (hwid_unset e) eqn:Hu;
        [destruct (redeemed_set e) eqn:Hr
        |destruct (Js.strict_eq (Js.of_sql (HWID e)) (hwid b)) eqn:Hm]];
      fault_cases fs; rewrite ?Hsel, ?Hu, ?Hr, ?Hm; simpl ].

(** X1: the status of the one answer tells the class of the outcome: 400 for
    missing input, 500 exactly when a call to the pool or the database
    threw, 200 for every other outcome, negative ones included. *)
Theorem verify_status_class (b : Body) (t : whitelist) (fs : list bool) :
  exists r,
    sent (run (verify_key b) (fresh t fs)) = [r] /\
    status r =
    if negb (Js.truthy (key b)) || negb (Js.truthy (hwid b)) then 400
    else if existsb failed (trace (run (verify_key b) (fresh t fs))) then 500
         else 200.
Proof.
  verify_paths b t fs; eexists; split; reflexivity.
Qed.

(** X2: the calls of one request, in order: nothing for missing input; a
    [getConnection] that throws is followed by nothing; otherwise one
    connection, one SELECT on it, at most one UPDATE and only after the
    SELECT succeeded, and the release of that connection as the last
    act, on the error paths too.  A call is never repeated: the request
    consumes one fault per call made. *)
Theorem verify_call_sequence (b : Body) (t : whitelist) (fs : list bool) :
  let p := Js.param (key b) in
  let tr := trace (run (verify_key b) (fresh t fs)) in
  (tr = [] \/
   tr = [connect false] \/
   tr = [connect true; query_select p false; release] \/
   tr = [connect true; query_select p true; release] \/
   exists ok,
     tr = [connect true; query_select p true;
           query_update (Js.param (hwid b)) (Some "true") p ok; release]) /\
  faults (run (verify_key b) (fresh t fs)) = skipn (length (filter is_call tr)) fs.
Proof.
  verify_paths b t fs; split; try reflexivity; eauto 6.
Qed.

(** X3: an answer with [success: true] is given only when, in the table the
    request leaves, the first row of the key holds the presented hwid. *)
Theorem success_means_bound_to_presenter
        (b : Body) (t : whitelist) (fs : list bool) (r : response) :
  In r (sent (run (verify_key b) (fresh t fs))) -> succeeded r = true ->
  exists e rest,
    select (Js.param (key b)) (table (run (verify_key b) (fresh t fs))) = e :: rest /\
    Js.of_sql (HWID e) = hwid b.
Proof.
  verify_paths b t fs; intros [<-|[]] Hs; try discriminate Hs;
    first
      [ exists e, rest; split; [exact Hsel|]; now apply strict_eq_true
      | rewrite select_update_same, Hsel; simpl;
        eexists; eexists; split; [reflexivity|]; simpl;
        apply orb_false_iff in G as [_ Gh];
        apply negb_false_iff, truthy_str in Gh as (h & -> & _); reflexivity ].
Qed.

Lemma success_means_bound_to_presenter_witness :
  exists e rest,
    select (Js.param (key (verify_body sample_key "H1")))
           (table (run (verify_key (verify_body sample_key "H1"))
                       (fresh unbound_table []))) = e :: rest /\
    Js.of_sql (HWID e) = hwid (verify_body sample_key "H1").
Proof.
  apply (success_means_bound_to_presenter
           (verify_body sample_key "H1") unbound_table [] RedeemedNow).
  - simpl. left. reflexivity.
  - reflexivity.
Defined.

(** X4: a request leaves the rows of every key other than its own as they
    were, whichever calls throw. *)
Theorem other_keys_untouched
        (k : string) (b : Body) (t : whitelist) (fs : list bool) :
  key b <> Js.str k ->
  select (Some k) (table (run (verify_key b) (fresh t fs))) = select (Some k) t.
Proof.
  intros Hne.
  destruct (run_any b t fs)
    as [[Ht _]|(k' & h & e & rest & Hk & _ & _ & _ & _ & _ & _ & Ht & _)];
    rewrite Ht; [reflexivity|].
  apply select_update_other. congruence.
Qed.

Lemma other_keys_untouched_witness :
  select (Some sample_key)
         (table (run (verify_key (verify_body "OTHER" "H9"))
                     (fresh (mkRow "OTHER" (mkEntry None None) :: unbound_table) [])))
  = select (Some sample_key) (mkRow "OTHER" (mkEntry None None) :: unbound_table).
Proof.
  apply (other_keys_untouched sample_key (verify_body "OTHER" "H9")).
  discriminate.
Defined.

(** ** The application as a whole *)

Lemma run_answers (p : prog) :
  forall (n : nat) (s : state),
    answers_left n p -> length (sent (run p s)) = length (sent s) + n.
Proof.
  induction p as [|r k IH|k IHk h IHh|key k IHk h IHh|hw m key k IHk h IHh|k IH];
    intros n s H; simpl in *.
  - subst n. lia.
  - destruct n as [|n]; [contradiction|].
    rewrite (IH n _ H). unfold reply. simpl. rewrite length_app. simpl. lia.
  - destruct H as [Hk Hh]. destruct (throws s); [rewrite (IHh _ _ Hh)|rewrite (IHk _ _ Hk)];
      reflexivity.
  - destruct H as [Hk Hh].
    destruct (throws s); [rewrite (IHh _ _ Hh)|rewrite (IHk _ _ _ (Hk _))]; reflexivity.
  - destruct H as [Hk Hh]. destruct (throws s); [rewrite (IHh _ _ Hh)|rewrite (IHk _ _ Hk)];
      reflexivity.
  - rewrite (IH _ _ H). reflexivity.
Qed.

Lemma verify_key_answers_once (b : Body) : answers_left 1 (verify_key b).
Proof.
  unfold verify_key.
  destruct (negb (Js.truthy (key b)) || negb (Js.truthy (hwid b))); simpl; auto.
  repeat split; auto.
  intros [|e rest]; simpl; auto.
  destruct (hwid_unset e); [destruct (redeemed_set e)|destruct (Js.strict_eq _ _)];
    simpl; auto.
Qed.

Lemma app_answers_once (env : Env) (req : Request) : answers_left 1 (app env req).
Proof.
  unfold app, routes.
  destruct (authenticated env req); [|simpl; auto].
  destruct (target req); [apply verify_key_answers_once|simpl; auto|simpl; auto].
Qed.

(** X5: every request, whatever its route, credential and body, and
    whichever calls throw, is answered exactly once. *)
Theorem every_request_answered_once
        (env : Env) (req : Request) (t : whitelist) (fs : list bool) :
  length (sent (run (app env req) (fresh t fs))) = 1.
Proof.
  rewrite (run_answers _ 1 _ (app_answers_once env req)). reflexivity.
Qed.

(** X6: the pool and the database are called only for an authenticated
    [POST /verify_key] whose [key] and [hwid] are both non-empty
    strings. *)
Theorem calls_only_for_valid_verify
        (env : Env) (req : Request) (t : whitelist) (fs : list bool) :
  trace (run (app env req) (fresh t fs)) <> [] ->
  authenticated env req = true /\
  target req = post_verify_key /\
  Js.truthy (key (body req)) = true /\
  Js.truthy (hwid (body req)) = true.
Proof.
  unfold app, routes.
  destruct (authenticated env req); [|simpl; congruence].
  destruct (target req); [|simpl; congruence|simpl; congruence].
  unfold verify_key.
  destruct (Js.truthy (key (body req))), (Js.truthy (hwid (body req)));
    simpl; try congruence; auto.
Qed.

Lemma calls_only_for_valid_verify_witness :
  authenticated (mkEnv (Some "s3cret"))
                (mkRequest post_verify_key (Some "s3cret") (verify_body sample_key "H1"))
  = true /\
  target (mkRequest post_verify_key (Some "s3cret") (verify_body sample_key "H1"))
  = post_verify_key /\
  Js.truthy (key (verify_body sample_key "H1")) = true /\
  Js.truthy (hwid (verify_body sample_key "H1")) = true.
Proof.
  apply (calls_only_for_valid_verify
           (mkEnv (Some "s3cret"))
           (mkRequest post_verify_key (Some "s3cret") (verify_body sample_key "H1"))
           unbound_table []).
  simpl. discriminate.
Defined.

(** X7: a non-empty [x-server-auth] header decides alone: the request passes
    exactly when the header is the configured secret, and
    [serverAuthKey] in the body is not looked at. *)
Theorem header_overrides_body_credential
        (env : Env) (r : route) (hdr : string) (b b' : Body) :
  hdr <> "" ->
  (authenticated env (mkRequest r (Some hdr) b) = true <->
   SERVER_API_KEY env = Some hdr) /\
  authenticated env (mkRequest r (Some hdr) b')
  = authenticated env (mkRequest r (Some hdr) b).
Proof.
  intros Hne. unfold authenticated, credential, Js.or. cbn [x_server_auth].
  change (Js.of_option (Some hdr)) with (Js.str hdr).
  rewrite !(truthy_of_str hdr Hne).
  split; [|reflexivity].
  rewrite strict_eq_true. destruct (SERVER_API_KEY env) as [s|]; simpl; split;
    intros H; try discriminate; congruence.
Qed.

Lemma header_overrides_body_credential_witness :
  authenticated (mkEnv (Some "s3cret"))
                (mkRequest post_verify_key (Some "wrong")
                           (mkBody (Js.str "s3cret") (Js.str sample_key) (Js.str "H1")))
  = authenticated (mkEnv (Some "s3cret"))
                  (mkRequest post_verify_key (Some "wrong") (verify_body sample_key "H1")).
Proof.
  apply (header_overrides_body_credential
           (mkEnv (Some "s3cret")) post_verify_key "wrong"
           (verify_body sample_key "H1")
           (mkBody (Js.str "s3cret") (Js.str sample_key) (Js.str "H1"))).
  discriminate.
Defined.

(** Without a header, or with an empty one, the body's [serverAuthKey]
    is the credential. *)
Theorem body_credential_when_no_header
        (env : Env) (r : route) (hdr : option string) (b : Body) :
  hdr = None \/ hdr = Some "" ->
  authenticated env (mkRequest r hdr b) = true <->
  serverAuthKey b = Js.of_option (SERVER_API_KEY env).
Proof.
  intros [-> | ->]; unfold authenticated, credential, Js.or; simpl;
    apply strict_eq_true.
Qed.

Lemma body_credential_when_no_header_witness :
  authenticated (mkEnv (Some "s3cret"))
                (mkRequest get_health (Some "")
                           (mkBody (Js.str "s3cret") Js.undefined Js.undefined))
  = true.
Proof.
  apply (body_credential_when_no_header
           (mkEnv (Some "s3cret")) get_health (Some "")
           (mkBody (Js.str "s3cret") Js.undefined Js.undefined)).
  - right. reflexivity.
  - reflexivity.
Defined.

(** ** Sequences of requests *)

(** X8: after a first use, another device is refused: for a key that reads
    unbound and unmarked, a non-empty hwid other than ['null'] and a
    different non-empty hwid, the two calls are answered [RedeemedNow]
    then [HwidMismatch], and the rows of the key stay with the first
    hwid. *)
Theorem first_use_then_other_device
        (k h other : string) (e : entry) (rest : list entry)
        (t : whitelist) (fs : list bool) :
  k <> "" -> h <> "" -> h <> "null" -> other <> "" -> other <> h ->
  reliable fs = true ->
  select (Some k) t = e :: rest ->
  hwid_unset e = true -> redeemed_set e = false ->
  answered [verify_body k h; verify_body k other] t fs
  = [[RedeemedNow]; [HwidMismatch]] /\
  select (Some k) (left_table [verify_body k h; verify_body k other] t fs)
  = bound_to h (e :: rest).
Proof.
  intros Hk Hh Hn Ho Hoh Hfs Hsel Hu Hr.
  unfold answered, left_table.
  rewrite session_cons. cbv zeta.
  destruct (run_reliable k h (verify_body k h) t fs eq_refl eq_refl Hk Hh Hfs)
    as [Hfs1 Hrun1].
  rewrite Hsel, Hu, Hr in Hrun1. destruct Hrun1 as [Hsent1 Ht1].
  assert (Hsel1 : select (Some k) (table (run (verify_key (verify_body k h)) (fresh t fs)))
                  = bound_to h (e :: rest)).
  { rewrite Ht1, select_update_same, Hsel. reflexivity. }
  rewrite session_cons. cbv zeta.
  destruct (run_reliable k other (verify_body k other)
                         (table (run (verify_key (verify_body k h)) (fresh t fs)))
                         _ eq_refl eq_refl Hk Ho Hfs1)
    as [_ Hrun2].
  rewrite Hsel1 in Hrun2. cbn [bound_to map] in Hrun2.
  rewrite (set_hwid_not_unset (mkEntry (Some h) (Some "true")) h eq_refl Hh Hn) in Hrun2.
  cbn [HWID Js.of_sql] in Hrun2.
  rewrite strict_eq_str_neq in Hrun2 by congruence.
  destruct Hrun2 as [Hsent2 Ht2].
  cbn [session fst snd map]. rewrite Hsent1, Hsent2, Ht2. split; [reflexivity|].
  exact Hsel1.
Qed.

Lemma first_use_then_other_device_witness :
  answered [verify_body sample_key "H1"; verify_body sample_key "H2"] unbound_table []
  = [[RedeemedNow]; [HwidMismatch]] /\
  select (Some sample_key)
         (left_table [verify_body sample_key "H1"; verify_body sample_key "H2"]
                     unbound_table [])
  = bound_to "H1" [mkEntry None None].
Proof.
  apply (first_use_then_other_device
           sample_key "H1" "H2" (mkEntry None None) [] unbound_table []).
  - discriminate.
  - discriminate.
  - discriminate.
  - discriminate.
  - discriminate.
  - reflexivity.
  - reflexivity.
  - reflexivity.
  - reflexivity.
Defined.

(** X9: a first use that a throwing call turned into [StoreError] has
    consumed nothing: the same request, sent again with no call throwing,
    is answered [RedeemedNow]. *)
Theorem failed_first_use_can_be_retried
        (k h : string) (e : entry) (rest : list entry)
        (t : whitelist) (fs : list bool) :
  k <> "" -> h <> "" ->
  select (Some k) t = e :: rest ->
  hwid_unset e = true -> redeemed_set e = false ->
  existsb failed (trace (run (verify_key (verify_body k h)) (fresh t fs))) = true ->
  reliable (faults (run (verify_key (verify_body k h)) (fresh t fs))) = true ->
  answered [verify_body k h; verify_body k h] t fs = [[StoreError]; [RedeemedNow]] /\
  select (Some k) (left_table [verify_body k h; verify_body k h] t fs)
  = bound_to h (e :: rest).
Proof.
  intros Hk Hh Hsel Hu Hr Hfail Hfs1.
  destruct (run_failed (verify_body k h) t fs Hfail) as [Hsent1 Ht1].
  unfold answered, left_table.
  rewrite 2 session_cons. cbv zeta.
  destruct (run_reliable k h (verify_body k h)
                         (table (run (verify_key (verify_body k h)) (fresh t fs)))
                         _ eq_refl eq_refl Hk Hh Hfs1)
    as [_ Hrun2].
  rewrite Ht1, Hsel, Hu, Hr in Hrun2. destruct Hrun2 as [Hsent2 Ht2].
  cbn [session fst snd map]. rewrite Hsent1, Ht1, Hsent2, Ht2. split; [reflexivity|].
  rewrite select_update_same, Hsel. reflexivity.
Qed.

Lemma failed_first_use_can_be_retried_witness :
  answered [verify_body sample_key "H1"; verify_body sample_key "H1"]
           unbound_table [false; false; true]
  = [[StoreError]; [RedeemedNow]] /\
  select (Some sample_key)
         (left_table [verify_body sample_key "H1"; verify_body sample_key "H1"]
                     unbound_table [false; false; true])
  = bound_to "H1" [mkEntry None None].
Proof.
  apply (failed_first_use_can_be_retried
           sample_key "H1" (mkEntry None None) [] unbound_table [false; false; true]).
  - discriminate.
  - discriminate.
  - reflexivity.
  - reflexivity.
  - reflexivity.
  - reflexivity.
  - reflexivity.
Defined.

Lemma marked_unset_refused
      (k : string) (e1 : entry) (rest1 : list entry)
      (b : Body) (t : whitelist) (fs : list bool) :
  select (Some k) t = e1 :: rest1 ->
  hwid_unset e1 = true -> redeemed_set e1 = true ->
  key b = Js.str k ->
  Forall (fun r => succeeded r = false) (sent (run (verify_key b) (fresh t fs))).
Proof.
  intros Hfirst Hu1 Hr1 Hk.
  verify_paths b t fs;
    try (rewrite Hk in Hsel; simpl in Hsel; rewrite Hfirst in Hsel;
         first [discriminate Hsel | injection Hsel as <- <-]);
    try congruence;
    repeat constructor.
Qed.

(** X10: a key whose first row reads as unbound but carries a redemption
    marker is out of use for good: whatever requests follow, with
    whatever hwid and whichever calls throwing, none for that key is
    answered with [success: true], and its rows stay as they are. *)
Theorem marked_unbound_key_is_dead
        (k : string) (e : entry) (rest : list entry)
        (reqs : list Body) (t : whitelist) (fs : list bool) :
  select (Some k) t = e :: rest ->
  hwid_unset e = true -> redeemed_set e = true ->
  select (Some k) (left_table reqs t fs) = e :: rest /\
  Forall (fun br => key (fst br) = Js.str k ->
                    Forall (fun r => succeeded r = false) (snd br))
         (fst (session reqs t fs)).
Proof.
  revert t fs. unfold left_table.
  induction reqs as [|b reqs IH]; intros t fs Hsel Hu Hr.
  - split; [exact Hsel|constructor].
  - rewrite session_cons. cbv zeta. cbn [fst snd].
    destruct (run_keeps_marker k e rest b t fs Hsel Hr) as [Hkeep _].
    rewrite Hsel in Hkeep.
    destruct (IH _ (faults (run (verify_key b) (fresh t fs))) Hkeep Hu Hr) as [IH1 IH2].
    split; [exact IH1|]. constructor; [|exact IH2].
    cbn [fst snd]. intros Hk.
    exact (marked_unset_refused k e rest b t fs Hsel Hu Hr Hk).
Qed.

Lemma marked_unbound_key_is_dead_witness :
  select (Some sample_key)
         (left_table [verify_body sample_key "null"; verify_body sample_key "H1"]
                     (bound_table "null") [])
  = [mkEntry (Some "null") (Some "true")] /\
  Forall (fun br => key (fst br) = Js.str sample_key ->
                    Forall (fun r => succeeded r = false) (snd br))
         (fst (session [verify_body sample_key "null"; verify_body sample_key "H1"]
                       (bound_table "null") [])).
Proof.
  apply (marked_unbound_key_is_dead
           sample_key (mkEntry (Some "null") (Some "true")) []).
  - reflexivity.
  - reflexivity.
  - reflexivity.
Defined.

(** ** What is never written *)

Lemma update_keys (h m p : option string) (t : whitelist) :
  map Key (update h m p t) = map Key t.
Proof.
  unfold update. induction t as [|r t IH]; simpl; [reflexivity|].
  rewrite IH. now destruct (key_is p r).
Qed.

Lemma run_keys (p : prog) :
  forall s : state, map Key (table (run p s)) = map Key (table s).
Proof.
  induction p as [|r k IH|k IHk h IHh|key k IHk h IHh|hw m key k IHk h IHh|k IH];
    intros s; simpl.
  - reflexivity.
  - now rewrite IH.
  - destruct (throws s); [rewrite IHh|rewrite IHk]; reflexivity.
  - destruct (throws s); [rewrite IHh|rewrite IHk]; reflexivity.
  - destruct (throws s); [rewrite IHh|rewrite IHk]; simpl; [reflexivity|].
    apply update_keys.
  - now rewrite IH.
Qed.

Lemma step_keys (fail : bool) (t : whitelist) (th : thread) :
  map Key (fst (step fail t th)) = map Key t.
Proof.
  unfold step. destruct (code th); simpl; try reflexivity.
  destruct fail; simpl; [reflexivity|apply update_keys].
Qed.

Lemma step_nth_keys (fail : bool) (ths : list thread) :
  forall (i : nat) (t : whitelist),
    map Key (fst (step_nth i fail t ths)) = map Key t.
Proof.
  induction ths as [|th ths IH]; intros i t; [now destruct i|].
  destruct i as [|i]; simpl.
  - pose proof (step_keys fail t th) as H. now destruct (step fail t th).
  - pose proof (IH i t) as H. now destruct (step_nth i fail t ths).
Qed.

(** X11: the service never adds, removes, reorders or renames a row: the
    column [Key] of the table is the same after any request run to
    completion and after any interleaving of requests, whichever calls
    throw. *)
Theorem keys_never_change :
  (forall (env : Env) (req : Request) (t : whitelist) (fs : list bool),
      map Key (table (run (app env req) (fresh t fs))) = map Key t) /\
  (forall (sched : list (nat * bool)) (s : system),
      map Key (db (exec sched s)) = map Key (db s)).
Proof.
  split.
  - intros env req t fs. apply run_keys.
  - induction sched as [|[i fail] sched IH]; intros s; [reflexivity|].
    simpl. pose proof (step_nth_keys fail (threads s) i (db s)) as H.
    destruct (step_nth i fail (db s) (threads s)) as [t' ths'].
    rewrite IH. exact H.
Qed.

(** ** Overlapping requests: invariants of every schedule *)

Section Invariants.

Variable Q : whitelist -> Prop.
Variable P : thread -> Prop.
Hypothesis step_keeps :
  forall (fail : bool) (t : whitelist) (th : thread),
    Q t -> P th -> Q (fst (step fail t th)) /\ P (snd (step fail t th)).

Lemma step_nth_keeps (fail : bool) (ths : list thread) :
  forall (i : nat) (t : whitelist),
    Q t -> Forall P ths ->
    Q (fst (step_nth i fail t ths)) /\ Forall P (snd (step_nth i fail t ths)).
Proof.
  induction ths as [|th ths IH]; intros i t HQ HP; [destruct i; auto|].
  inversion HP as [|? ? Hth Hths]; subst.
  destruct i as [|i]; simpl.
  - destruct (step_keeps fail t th HQ Hth) as [HQ' HP'].
    destruct (step fail t th) as [t' th']. simpl in *. auto.
  - destruct (IH i t HQ Hths) as [HQ' HP'].
    destruct (step_nth i fail t ths) as [t' ths']. simpl in *. auto.
Qed.

Lemma exec_keeps (sched : list (nat * bool)) :
  forall s : system,
    Q (db s) -> Forall P (threads s) ->
    Q (db (exec sched s)) /\ Forall P (threads (exec sched s)).
Proof.
  induction sched as [|[i fail] sched IH]; intros s HQ HP; [auto|].
  simpl. destruct (step_nth_keeps fail (threads s) i (db s) HQ HP) as [HQ' HP'].
  destruct (step_nth i fail (db s) (threads s)) as [t' ths'].
  apply IH; assumption.
Qed.

End Invariants.

Lemma param_some (v : Js.value) (k : string) : Js.param v = Some k -> v = Js.str k.
Proof. destruct v; simpl; congruence. Qed.

Lemma verify_key_spares (k : string) (held : list entry) (b : Body) :
  settled held \/ key b <> Js.str k -> spares k held (verify_key b).
Proof.
  intros H. unfold verify_key.
  destruct (negb (Js.truthy (key b)) || negb (Js.truthy (hwid b))); simpl; auto.
  repeat split; auto.
  intros [|e rest] Hrows; simpl; auto.
  destruct (hwid_unset e) eqn:Hu;
    [destruct (redeemed_set e) eqn:Hr|destruct (Js.strict_eq _ _)]; simpl; auto.
  repeat split; auto.
  intros Hp. destruct H as [H|H].
  - rewrite <- (Hrows Hp) in H. simpl in H. destruct H; congruence.
  - apply H. now apply param_some.
Qed.

Lemma step_spares (k : string) (held : list entry)
      (fail : bool) (t : whitelist) (th : thread) :
  select (Some k) t = held -> spares k held (code th) ->
  select (Some k) (fst (step fail t th)) = held /\
  spares k held (code (snd (step fail t th))).
Proof.
  intros Hsel Hsp. unfold step.
  destruct (code th) as [|r p|p1 p2|p kont h|hw m p p1 p2|p] eqn:Hc;
    destruct fail; simpl in *; rewrite ?Hc; intuition auto.
  - apply H. intros ->. exact Hsel.
  - rewrite select_update_other; congruence.
Qed.

Lemma exec_spares (k : string) (held : list entry) (sched : list (nat * bool))
      (s : system) :
  select (Some k) (db s) = held ->
  Forall (fun th => spares k held (code th)) (threads s) ->
  select (Some k) (db (exec sched s)) = held.
Proof.
  intros Hsel Hsp.
  apply (exec_keeps (fun t => select (Some k) t = held)
                    (fun th => spares k held (code th))); auto.
  intros fail t th. apply step_spares.
Qed.

(** X12: a key that is bound, or marked as redeemed, before a batch of
    requests starts keeps its rows through every interleaving of those
    requests, whatever they present and whichever calls throw: only a
    key that reads unbound and unmarked is ever written. *)
Theorem settled_key_survives_every_schedule
        (k : string) (t : whitelist) (reqs : list Body) (sched : list (nat * bool)) :
  settled (select (Some k) t) ->
  select (Some k) (db (exec sched (start t reqs))) = select (Some k) t.
Proof.
  intros Hs. apply exec_spares; [reflexivity|].
  unfold start. simpl. apply Forall_forall. intros th Hin.
  apply in_map_iff in Hin as (b & <- & _). simpl.
  apply verify_key_spares. now left.
Qed.

Lemma settled_key_survives_every_schedule_witness :
  select (Some sample_key)
         (db (exec (racing_schedule ++ racing_rest)
                   (start (bound_table "H0")
                          [verify_body sample_key "H1"; verify_body sample_key "H2"])))
  = select (Some sample_key) (bound_table "H0").
Proof.
  apply (settled_key_survives_every_schedule sample_key (bound_table "H0")).
  simpl. left. reflexivity.
Defined.

(** X13: overlapping requests write only the rows of their own keys: through
    every interleaving, the rows of a key that none of the requests
    names stay as they were. *)
Theorem unnamed_key_survives_every_schedule
        (k : string) (t : whitelist) (reqs : list Body) (sched : list (nat * bool)) :
  (forall b, In b reqs -> key b <> Js.str k) ->
  select (Some k) (db (exec sched (start t reqs))) = select (Some k) t.
Proof.
  intros Hs. apply exec_spares; [reflexivity|].
  unfold start. simpl. apply Forall_forall. intros th Hin.
  apply in_map_iff in Hin as (b & <- & Hb). simpl.
  apply verify_key_spares. right. now apply Hs.
Qed.

Lemma unnamed_key_survives_every_schedule_witness :
  select (Some "OTHER")
         (db (exec (racing_schedule ++ racing_rest)
                   (start (mkRow "OTHER" (mkEntry None None) :: unbound_table)
                          [verify_body sample_key "H1"; verify_body sample_key "H2"])))
  = select (Some "OTHER") (mkRow "OTHER" (mkEntry None None) :: unbound_table).
Proof.
  apply (unnamed_key_survives_every_schedule "OTHER").
  intros b [<-|[<-|[]]]; discriminate.
Defined.

Lemma step_answers (fail : bool) (t : whitelist) (th : thread) :
  (exists n, answers_left n (code th) /\ length (answers th) + n = 1) ->
  exists n, answers_left n (code (snd (step fail t th))) /\
            length (answers (snd (step fail t th))) + n = 1.
Proof.
  intros (n & Hn & Hlen). unfold step.
  destruct (code th) as [|r p|p1 p2|p kont h|hw m p p1 p2|p] eqn:Hc;
    simpl in Hn.
  - exists n. simpl. rewrite Hc. auto.
  - destruct n as [|n]; [contradiction|]. exists n. simpl. split; [exact Hn|].
    rewrite length_app. simpl. lia.
  - destruct Hn. exists n. destruct fail; simpl; auto.
  - destruct Hn. exists n. destruct fail; simpl; auto.
  - destruct Hn. exists n. destruct fail; simpl; auto.
  - exists n. simpl. auto.
Qed.

(** X14: through every interleaving and whichever calls throw, no request is
    answered twice, and a request that has run to its end has been
    answered exactly once. *)
Theorem one_answer_under_every_schedule
        (t : whitelist) (reqs : list Body) (sched : list (nat * bool)) :
  Forall (fun th => length (answers th) <= 1 /\
                    (code th = Halt -> length (answers th) = 1))
         (threads (exec sched (start t reqs))).
Proof.
  assert (H : Forall (fun th => exists n, answers_left n (code th) /\
                                          length (answers th) + n = 1)
                     (threads (exec sched (start t reqs)))).
  { apply (exec_keeps (fun _ => True)
                      (fun th => exists n, answers_left n (code th) /\
                                           length (answers th) + n = 1)).
    - intros fail t' th _ Hth. split; [exact I|]. now apply step_answers.
    - exact I.
    - unfold start. simpl. apply Forall_forall. intros th Hin.
      apply in_map_iff in Hin as (b & <- & _). simpl.
      exists 1. split; [apply verify_key_answers_once|reflexivity]. }
  eapply Forall_impl; [|exact H].
  intros th (n & Hn & Hlen). split; [lia|].
  intros Hc. rewrite Hc in Hn. simpl in Hn. lia.
Qed.

(** ** The connection pool *)

Lemma balanced_holds (p : prog) : forall c : bool, balanced c p -> holds p = c.
Proof.
  induction p as [|r k IH|k IHk h IHh|key k IHk h IHh|hw m key k IHk h IHh|k IH];
    intros c Hb; simpl in *; try (symmetry; tauto); auto.
Qed.

Lemma verify_key_balanced (b : Body) : balanced false (verify_key b).
Proof.
  unfold verify_key.
  destruct (negb (Js.truthy (key b)) || negb (Js.truthy (hwid b))); simpl; auto.
  repeat split; auto.
  intros [|e rest]; simpl; auto.
  destruct (hwid_unset e); [destruct (redeemed_set e)|destruct (Js.strict_eq _ _)];
    simpl; auto.
Qed.

Lemma holding_cons (th : thread) (ths : list thread) :
  holding (th :: ths) = weight th + holding ths.
Proof.
  unfold holding, weight. simpl. now destruct (holds (code th)).
Qed.

Lemma pool_step_keeps (fail : bool) (c n : nat) (t : whitelist) (th : thread) :
  balanced (holds (code th)) (code th) ->
  n = c + weight th -> n <= connectionLimit ->
  let th' := snd (snd (pool_step fail n t th)) in
  let n' := fst (pool_step fail n t th) in
  balanced (holds (code th')) (code th') /\
  n' = c + weight th' /\ n' <= connectionLimit.
Proof.
  intros Hb Hn Hle. unfold pool_step, step, weight in *.
  destruct (code th) as [|r p|p1 p2|p kont h|hw m p p1 p2|p] eqn:Hc;
    simpl in Hb, Hn.
  - simpl. rewrite Hc. simpl. auto.
  - simpl. auto.
  - destruct Hb as (_ & H1 & H2).
    destruct fail; simpl.
    + rewrite (balanced_holds _ _ H2). split; [exact H2|lia].
    + destruct (n <? connectionLimit)%nat eqn:E; simpl.
      * apply Nat.ltb_lt in E. rewrite (balanced_holds _ _ H1).
        split; [exact H1|lia].
      * rewrite Hc. simpl. repeat split; auto.
  - destruct Hb as (_ & H1 & H2).
    destruct fail; simpl.
    + rewrite (balanced_holds _ _ H2). split; [exact H2|lia].
    + rewrite (balanced_holds _ _ (H1 _)). split; [apply H1|lia].
  - destruct Hb as (_ & H1 & H2).
    destruct fail; simpl.
    + rewrite (balanced_holds _ _ H2). split; [exact H2|lia].
    + rewrite (balanced_holds _ _ H1). split; [exact H1|lia].
  - destruct Hb as (_ & H1). simpl.
    rewrite (balanced_holds _ _ H1). split; [exact H1|lia].
Qed.

Lemma pool_step_nth_keeps (fail : bool) (ths : list thread) :
  forall (i c n : nat) (t : whitelist),
    Forall (fun th => balanced (holds (code th)) (code th)) ths ->
    n = c + holding ths -> n <= connectionLimit ->
    let ths' := snd (snd (pool_step_nth i fail n t ths)) in
    let n' := fst (pool_step_nth i fail n t ths) in
    Forall (fun th => balanced (holds (code th)) (code th)) ths' /\
    n' = c + holding ths' /\ n' <= connectionLimit.
Proof.
  induction ths as [|th ths IH]; intros i c n t HF Hn Hle; [destruct i; simpl; auto|].
  apply Forall_cons_iff in HF as [Hth Hths].
  rewrite holding_cons in Hn.
  destruct i as [|i]; simpl.
  - destruct (pool_step_keeps fail (c + holding ths) n t th Hth) as (Hb & Hn' & Hle');
      [lia|exact Hle|].
    destruct (pool_step fail n t th) as [n' [t' th']]. simpl in *.
    rewrite holding_cons. split; [constructor; assumption|lia].
  - destruct (IH i (c + weight th) n t Hths) as (HF' & Hn' & Hle'); [lia|exact Hle|].
    destruct (pool_step_nth i fail n t ths) as [n' [t' ths']]. simpl in *.
    rewrite holding_cons. split; [constructor; assumption|lia].
Qed.

Lemma pool_exec_keeps (sched : list (nat * bool)) :
  forall s : pooled,
    Forall (fun th => balanced (holds (code th)) (code th)) (threads (inner s)) ->
    in_use s = holding (threads (inner s)) -> in_use s <= connectionLimit ->
    in_use (pool_exec sched s) = holding (threads (inner (pool_exec sched s))) /\
    in_use (pool_exec sched s) <= connectionLimit.
Proof.
  induction sched as [|[i fail] sched IH]; intros s HF Hn Hle; [auto|].
  simpl.
  destruct (pool_step_nth_keeps fail (threads (inner s)) i 0 (in_use s)
                                (db (inner s)) HF Hn Hle) as (HF' & Hn' & Hle').
  destruct (pool_step_nth i fail (in_use s) (db (inner s)) (threads (inner s)))
    as [n' [t' ths']].
  simpl in *. apply IH; simpl; assumption.
Qed.

Lemma start_holds_none (t : whitelist) (reqs : list Body) :
  holding (threads (start t reqs)) = 0.
Proof.
  unfold holding. simpl. induction reqs as [|b reqs IH]; [reflexivity|].
  simpl. rewrite (balanced_holds _ _ (verify_key_balanced b)). exact IH.
Qed.

Lemma halted_hold_none (ths : list thread) :
  Forall (fun th => code th = Halt) ths -> holding ths = 0.
Proof.
  induction 1 as [|th ths Hth _ IH]; [reflexivity|].
  rewrite holding_cons, IH. unfold weight. now rewrite Hth.
Qed.

(** X15: connections do not leak and the pool's limit is kept: through every
    interleaving and whichever calls throw, the connections out are
    those of the requests between their [getConnection] and their
    [release], never more than [connectionLimit], and none once every
    request has run to its end. *)
Theorem pool_never_leaks
        (t : whitelist) (reqs : list Body) (sched : list (nat * bool)) :
  let s := pool_exec sched (pool_start t reqs) in
  in_use s = holding (threads (inner s)) /\
  in_use s <= connectionLimit /\
  (Forall (fun th => code th = Halt) (threads (inner s)) -> in_use s = 0).
Proof.
  cbv zeta.
  assert (HF : Forall (fun th => balanced (holds (code th)) (code th))
                      (threads (inner (pool_start t reqs)))).
  { simpl. apply Forall_forall. intros th Hin.
    apply in_map_iff in Hin as (b & <- & _). simpl.
    rewrite (balanced_holds _ _ (verify_key_balanced b)).
    apply verify_key_balanced. }
  assert (H0 : in_use (pool_start t reqs) = holding (threads (inner (pool_start t reqs)))).
  { simpl. symmetry. exact (start_holds_none t reqs). }
  destruct (pool_exec_keeps sched (pool_start t reqs) HF H0) as [Hn Hle].
  { simpl. unfold connectionLimit. lia. }
  repeat split; [exact Hn|exact Hle|].
  intros Hall. rewrite Hn. now apply halted_hold_none.
Qed.

Lemma pool_never_leaks_witness :
  Forall (fun th => code th = Halt)
         (threads (inner (pool_exec (racing_schedule ++ racing_rest)
                                    (pool_start unbound_table
                                       [verify_body sample_key "H1";
                                        verify_body sample_key "H2"])))) /\
  in_use (pool_exec (racing_schedule ++ racing_rest)
                    (pool_start unbound_table
                       [verify_body sample_key "H1"; verify_body sample_key "H2"])) = 0.
Proof.
  assert (H : Forall (fun th => code th = Halt)
         (threads (inner (pool_exec (racing_schedule ++ racing_rest)
                                    (pool_start unbound_table
                                       [verify_body sample_key "H1";
                                        verify_body sample_key "H2"]))))).
  { simpl. repeat constructor. }
  split; [exact H|].
  exact (proj2 (proj2 (pool_never_leaks
                         unbound_table
                         [verify_body sample_key "H1"; verify_body sample_key "H2"]
                         (racing_schedule ++ racing_rest))) H).
Defined.

Lemma one_answer_under_every_schedule_witness :
  Forall (fun th => length (answers th) <= 1 /\
                    (code th = Halt -> length (answers th) = 1))
         (threads (exec racing_schedule racing_start)).
Proof.
  exact (one_answer_under_every_schedule
           unbound_table
           [verify_body sample_key "H1"; verify_body sample_key "H2"]
           racing_schedule).
Defined.

(** ** Duplicate rows *)

(** X16: when several rows carry the key, the first one alone decides the
    answer: two tables whose first row for the key is the same give the
    same answer to the same request under the same faults. *)
Theorem first_row_decides
        (b : Body) (e : entry) (r1 r2 : list entry)
        (t1 t2 : whitelist) (fs : list bool) :
  select (Js.param (key b)) t1 = e :: r1 ->
  select (Js.param (key b)) t2 = e :: r2 ->
  sent (run (verify_key b) (fresh t1 fs)) = sent (run (verify_key b) (fresh t2 fs)).
Proof.
  intros H1 H2. unfold verify_key.
  destruct (negb (Js.truthy (key b)) || negb (Js.truthy (hwid b))); [reflexivity|].
  fault_cases fs; rewrite ?H1, ?H2;
    destruct (hwid_unset e), (redeemed_set e),
             (Js.strict_eq (Js.of_sql (HWID e)) (hwid b)); reflexivity.
Qed.

Lemma first_row_decides_witness :
  sent (run (verify_key (verify_body sample_key "H1"))
            (fresh (bound_table "H1") []))
  = sent (run (verify_key (verify_body sample_key "H1"))
              (fresh (bound_table "H1" ++ bound_table "H2")%list [])).
Proof.
  apply (first_row_decides
           (verify_body sample_key "H1") (mkEntry (Some "H1") (Some "true"))
           [] [mkEntry (Some "H2") (Some "true")]).
  - reflexivity.
  - reflexivity.
Defined.

(** ** Overlapping requests on a bound key *)

Section Invariants2.

Variable B : Type.
Variable Q : whitelist -> Prop.
Variable P : B -> thread -> Prop.
Hypothesis step_keeps :
  forall (fail : bool) (t : whitelist) (b : B) (th : thread),
    Q t -> P b th -> Q (fst (step fail t th)) /\ P b (snd (step fail t th)).



End Invariants2.




